(** * update_dev_config.py: the dev_config reference migration script

    A shallow embedding of [scripts/update_dev_config.py] and the
    properties of its rewrite engine, file discovery and file
    orchestration.

    Python text ([str]) is a sequence of Unicode code points.  A code
    point is a number of type [N]; a text is a list of them.  The script
    relies on three pieces of the Python runtime, which are modelled
    here as far as the script uses them:

    - [str] operations: [in], [endswith], [replace(old, new, 1)],
      slicing and concatenation;
    - the [re] module on the patterns the script builds: literals, [\b],
      greedy [\s+ \s* \w+ [^)]*], capturing groups around [\w+] and the
      negative look-ahead [(?![\w.])], with the backtracking order of
      the [sre] engine;
    - [os.walk], [open], [read], [write] and [print]. *)

From Stdlib Require Import String Ascii.
From Stdlib Require Import List NArith Arith Bool Lia.
Import ListNotations.

(** ** Text *)

Definition char := N.
Definition str := list char.

(** The text of a string literal; all literals of the script that take
    part in a computation are ASCII. *)
Definition text (s : string) : str := map N_of_ascii (list_ascii_of_string s).

Definition char_eqb (a b : char) : bool := N.eqb a b.

Fixpoint str_eqb (a b : str) : bool :=
  match a, b with
  | [], [] => true
  | x :: a', y :: b' => char_eqb x y && str_eqb a' b'
  | _, _ => false
  end.

(** [s.startswith(p)] *)
Fixpoint startswith (p s : str) : bool :=
  match p, s with
  | [], _ => true
  | x :: p', y :: s' => char_eqb x y && startswith p' s'
  | _ :: _, [] => false
  end.

(** [s.endswith(p)] *)
Definition endswith (p s : str) : bool := startswith (rev p) (rev s).

(** [sub in s]: [sub] occurs in [s] as a contiguous piece. *)
Fixpoint contains (sub s : str) : bool :=
  startswith sub s ||
  match s with
  | [] => false
  | _ :: s' => contains sub s'
  end.

(** [s.replace(old, new, 1)]: the leftmost occurrence of [old] replaced. *)
Fixpoint replace_first (old new s : str) : str :=
  if startswith old s then new ++ skipn (length old) s
  else match s with
       | [] => []
       | x :: s' => x :: replace_first old new s'
       end.

(** ** Character classes

    [\w] is a letter, a digit, a numeric character or the underscore;
    [\s] is a white-space character.  No character is both, so every
    code point has one class.  The ASCII part of the classification is
    fixed below; the classification of the code points from U+0080 on
    comes from the Unicode database of the interpreter and is a
    parameter of the development. *)

Inductive char_class := Word | Space | Other.

Definition in_range (lo hi c : N) : bool := (N.leb lo c && N.leb c hi)%bool.

Local Open Scope N_scope.

Definition ascii_class (c : char) : char_class :=
  if in_range 48 57 c || in_range 65 90 c || in_range 97 122 c || N.eqb c 95
  then Word                                   (* 0-9 A-Z a-z _ *)
  else if in_range 9 13 c || in_range 28 32 c (* \t \n \v \f \r, FS GS RS US, space *)
  then Space
  else Other.

Local Close Scope N_scope.

(** ** Output *)

(** What the script prints, one constructor per [print] call of the
    source; the arguments are the values formatted into the line. *)
Inductive line :=
| Processing (filepath : str)              (* "  Processing {filepath}" *)
| ErrorReading (e : str)                   (* "    Error reading file: {e}" *)
| Updated (changes_made : list str)        (* "    Updated: {', '.join(changes_made)}" *)
| ErrorWriting (e : str)                   (* "    Error writing file: {e}" *)
| NoChangesNeeded                          (* "    No changes needed" *)
| Replacing (constant : str)               (* "    Replacing {constant}" *)
| Starting                                 (* "Starting dev_config reference update..." *)
| Finding                                  (* "Finding Dart files..." *)
| Found (n : nat)                          (* "Found {n} Dart files to process" *)
| NoDartFiles                              (* "No Dart files found!" *)
| Finished (updated_files n : nat)         (* "Finished! Updated {updated_files} out of {n} files" *)
| NextSteps                                (* "Next steps:" and its three numbered lines *)
| RunAgainHint.                            (* "If you see compilation errors, the script can be run again safely" *)

(** A computation that prints: its value and the lines printed, in order. *)
Definition Out (A : Type) : Type := (A * list line)%type.

Definition ret {A} (a : A) : Out A := (a, []).

Definition bind {A B} (m : Out A) (f : A -> Out B) : Out B :=
  let (a, l1) := m in
  let (b, l2) := f a in
  (b, l1 ++ l2).

Definition print (l : line) : Out unit := (tt, [l]).

Definition returned {A} (m : Out A) : A := fst m.
Definition printed {A} (m : Out A) : list line := snd m.

Notation "x <- m ;; k" := (bind m (fun x => k))
  (at level 61, m at next level, right associativity).
Notation "m ;;; k" := (bind m (fun _ => k))
  (at level 61, right associativity).

(** ** File discovery *)

(** A directory entry: a file, or a directory with its entries in the
    order in which the system lists them.  [os.walk] does not enter a
    directory behind a symbolic link and passes over a directory it
    cannot list: such a directory adds no file, and stands here as a
    directory without entries. *)
#[warnings="-register-all"]
Inductive entry :=
| File (name : str)
| Dir (name : str) (entries : list entry).

Definition files_of (entries : list entry) : list str :=
  flat_map (fun e => match e with File name => [name] | Dir _ _ => [] end) entries.

Definition dirs_of (entries : list entry) : list str :=
  flat_map (fun e => match e with File _ => [] | Dir name _ => [name] end) entries.

(** [os.path.join(a, b)] *)
Definition os_path_join (a b : str) : str :=
  if startswith (text "/") b then b
  else if str_eqb a [] || endswith (text "/") a then a ++ b
  else a ++ text "/" ++ b.

(** [os.walk(top)], top down: the triple (directory, its
    subdirectories, its files) of a directory comes before the triples
    of its subdirectories.  [walk_entry] is the recursive call of the
    generator on one subdirectory. *)
Fixpoint walk_entry (top : str) (e : entry) : list (str * list str * list str) :=
  match e with
  | File _ => []
  | Dir name sub =>
      let new_path := os_path_join top name in
      (new_path, dirs_of sub, files_of sub) :: flat_map (walk_entry new_path) sub
  end.

Definition os_walk (top : str) (entries : list entry) : list (str * list str * list str) :=
  (top, dirs_of entries, files_of entries) :: flat_map (walk_entry top) entries.

(** Find all .dart files except dev_config.dart *)
Definition find_dart_files (cwd : list entry) : list str :=
  flat_map (fun triple =>
              let '(root, _, files) := triple in
              flat_map (fun file =>
                          if endswith (text ".dart") file then
                            let path := os_path_join root file in
                            if negb (contains (text "dev_config.dart") path) then [path] else []
                          else []) files)
           (os_walk (text ".") cwd).

(** ** Files *)

(** The outcome of an operation that may raise: its value, or the
    message of the exception. *)
Inductive result (A : Type) :=
| Ok (a : A)
| Raised (e : str).
Arguments Ok {A} a.
Arguments Raised {A} e.

(** What the script does to the outside world, in order. *)
Inductive event :=
| EvPrint (l : line)
| EvRead (filepath : str)
| EvWrite (filepath content : str).

(** ** In-memory files

    A file system small enough to run the script on: the tree below the
    working directory, the text of each file by its path, and the paths
    that cannot be written. *)
Record memfs := MemFs {
  mem_tree : list entry;
  mem_files : list (str * str);
  mem_locked : list str
}.

Definition mem_read (fs : memfs) (filepath : str) : result str :=
  match find (fun kv => str_eqb (fst kv) filepath) (mem_files fs) with
  | Some kv => Ok (snd kv)
  | None => Raised (text "No such file or directory")
  end.

Definition mem_write (fs : memfs) (filepath content : str) : memfs * result unit :=
  if existsb (str_eqb filepath) (mem_locked fs)
  then (fs, Raised (text "Permission denied"))
  else (MemFs (mem_tree fs)
              ((filepath, content)
               :: filter (fun kv => negb (str_eqb (fst kv) filepath)) (mem_files fs))
              (mem_locked fs),
        Ok tt).

(** Three small trees: one Dart file that uses a constant and one that
    does not; the same with the first file locked; no Dart file. *)
Definition two_files : memfs :=
  MemFs [Dir (text "lib") [File (text "a.dart"); File (text "b.dart")]]
        [(text "./lib/a.dart", text "double a = kScrollWheelVelocity * 2;");
         (text "./lib/b.dart", text "int b = 1;")]
        [].

Definition two_files_locked : memfs :=
  MemFs (mem_tree two_files) (mem_files two_files) [text "./lib/a.dart"].


(** A classification in which no code point from U+0080 on is a word or
    a white-space character.  The closed runs below are on ASCII text,
    on which every classification agrees. *)
Definition ascii_only : char -> char_class := fun _ => Other.

(** ** Vocabulary of the properties *)

(** [sub] occurs in [s]. *)
Definition occurs (sub s : str) : Prop := exists pre post, s = pre ++ sub ++ post.

(** The files written and the lines printed by a run, in order. *)
Definition writes (t : list event) : list (str * str) :=
  flat_map (fun e => match e with EvWrite filepath content => [(filepath, content)] | _ => [] end) t.

Definition prints (t : list event) : list line :=
  flat_map (fun e => match e with EvPrint l => [l] | _ => [] end) t.

(** The files read by a run, in order. *)
Definition reads (t : list event) : list str :=
  flat_map (fun e => match e with EvRead filepath => [filepath] | _ => [] end) t.

(** The lines that report an updated file. *)
Definition is_updated (l : line) : bool :=
  match l with Updated _ => true | _ => false end.

(** [file_in top entries path name]: below the directory [top], whose
    entries are [entries], there is a file called [name], and [path] is
    what [os.path.join] makes of the directories that lead to it and its
    name. *)
Inductive file_in : str -> list entry -> str -> str -> Prop :=
| file_here (top : str) (entries : list entry) (name : str) :
    In (File name) entries ->
    file_in top entries (os_path_join top name) name
| file_below (top : str) (entries : list entry) (d : str) (sub : list entry)
    (path name : str) :
    In (Dir d sub) entries ->
    file_in (os_path_join top d) sub path name ->
    file_in top entries path name.

Section Classes.

Variable unicode_class : char -> char_class.

Definition class_of (c : char) : char_class :=
  if N.ltb c 128%N then ascii_class c else unicode_class c.

Definition is_word (c : char) : bool :=
  match class_of c with Word => true | _ => false end.

Definition is_space (c : char) : bool :=
  match class_of c with Space => true | _ => false end.

(** [[^x]] *)
Definition is_not (x c : char) : bool := negb (char_eqb c x).

(** [[\w.]] *)
Definition is_word_or_dot (c : char) : bool := is_word c || char_eqb c 46%N.

(** ** Regular expressions

    A pattern is a sequence of atoms.  Quantifiers apply to character
    classes only and are greedy; a quantified class may be a capturing
    group. *)

Inductive atom :=
| Lit (c : char)                                   (* the character c *)
| Boundary                                         (* \b *)
| Many (cls : char -> bool) (least : nat) (capture : bool)
                                                   (* X* (least 0), X+ (least 1), (X+) *)
| NotAhead (cls : char -> bool).                   (* (?!X) *)

Definition pattern := list atom.

(** [re.escape(s)] as a pattern: the text [s], character by character. *)
Definition re_escape (s : str) : pattern := map Lit s.

Definition head_is_word (s : str) : bool :=
  match s with
  | [] => false
  | x :: _ => is_word x
  end.

(** The state of a match attempt: whether the character before the
    current position is a word character ([false] at the start of the
    text), the text from the current position on, the number of
    characters matched so far, and the groups closed so far, last
    first. *)

Section Greedy.

Variable cls : char -> bool.
Variable continue : bool -> str -> nat -> str -> option (nat * list str).

(** Take as many characters of the class as there are, then give them
    back one at a time until the rest of the pattern matches.  [taken]
    is what has been taken, last character first. *)
Fixpoint greedy (least : nat) (before : bool) (s : str) (n : nat) (taken : str)
  : option (nat * list str) :=
  let stop := match least with
              | O => continue before s n taken
              | S _ => None
              end in
  match s with
  | [] => stop
  | x :: s' =>
      if cls x then
        match greedy (pred least) (is_word x) s' (S n) (x :: taken) with
        | Some r => Some r
        | None => stop
        end
      else stop
  end.

End Greedy.

Fixpoint run (p : pattern) (before : bool) (s : str) (n : nat) (groups : list str)
  : option (nat * list str) :=
  match p with
  | [] => Some (n, groups)
  | a :: p' =>
      match a with
      | Lit c =>
          match s with
          | [] => None
          | x :: s' => if char_eqb x c then run p' (is_word x) s' (S n) groups else None
          end
      | Boundary =>
          if xorb before (head_is_word s) then run p' before s n groups else None
      | Many cls least capture =>
          greedy cls
            (fun before' s' n' taken =>
               run p' before' s' n' (if capture then rev taken :: groups else groups))
            least before s n []
      | NotAhead cls =>
          match s with
          | [] => run p' before s n groups
          | x :: _ => if cls x then None else run p' before s n groups
          end
      end
  end.

(** A match attempt at the current position: the length of the match
    and its groups in the order of the pattern. *)
Definition match_here (p : pattern) (before : bool) (s : str) : option (nat * list str) :=
  match run p before s 0 [] with
  | Some (n, groups) => Some (n, rev groups)
  | None => None
  end.

(** A match object: [start()], [end()], [group(0)] and the numbered groups. *)
Record match_object := MatchObject {
  m_start : nat;
  m_end : nat;
  m_text : str;
  m_groups : list str
}.

(** [group(i)] for [i >= 1] *)
Definition group (m : match_object) (i : nat) : str := nth (pred i) (m_groups m) [].

(** The search loop shared by [re.finditer] and [re.sub]: matches are
    looked for from left to right and do not overlap.  [skip] counts the
    characters of the last match that are still to be passed.  Every
    pattern of the script contains a literal, so a match is never empty
    (lemma [match_here_not_empty] below) and nothing is attempted at the
    end of the text. *)
Fixpoint finditer_from (p : pattern) (pos : nat) (before : bool) (s : str) (skip : nat)
  : list match_object :=
  match s with
  | [] => []
  | x :: s' =>
      match skip with
      | S k => finditer_from p (S pos) (is_word x) s' k
      | O =>
          match match_here p before s with
          | Some (S n, groups) =>
              MatchObject pos (pos + S n) (firstn (S n) s) groups
              :: finditer_from p (S pos) (is_word x) s' n
          | _ => finditer_from p (S pos) (is_word x) s' 0
          end
      end
  end.

Definition re_finditer (p : pattern) (s : str) : list match_object :=
  finditer_from p 0 false s 0.

(** The same loop building the new text: the text outside the matches
    is kept and [repl], applied to the matched text and its groups,
    stands for each match.  This is [re.sub] with a function as the
    replacement. *)
Fixpoint sub_from (p : pattern) (repl : str -> list str -> str) (before : bool) (s : str)
  (skip : nat) : str :=
  match s with
  | [] => []
  | x :: s' =>
      match skip with
      | S k => sub_from p repl (is_word x) s' k
      | O =>
          match match_here p before s with
          | Some (S n, groups) =>
              repl (firstn (S n) s) groups ++ sub_from p repl (is_word x) s' n
          | _ => x :: sub_from p repl (is_word x) s' 0
          end
      end
  end.

(** A replacement template: literal text and group references [\1], [\2]. *)
Inductive template_item :=
| TText (t : str)
| TGroup (i : nat).

Definition template := list template_item.

Definition expand (t : template) (groups : list str) : str :=
  flat_map (fun item =>
              match item with
              | TText s => s
              | TGroup i => nth (pred i) groups []
              end) t.

(** [re.sub(pattern, repl, s)] with a template as the replacement.  The
    script formats the constant into the template; a constant is made
    of word characters, so it stands for itself there. *)
Definition re_sub (p : pattern) (repl : template) (s : str) : str :=
  sub_from p (fun _ groups => expand repl groups) false s 0.

(** ** The script *)

(** All constants to replace *)
Definition CONSTANTS : list str := map text [
    "kFallbackTileEstimateKb"; "kPreviewTileZoom"; "kPreviewTileY"; "kPreviewTileX";
    "kDirectionConeHalfAngle"; "kDirectionConeBaseLength"; "kDirectionConeColor"; "kDirectionConeOpacity";
    "kBottomButtonBarOffset"; "kButtonBarHeight"; "kAttributionSpacingAboveButtonBar";
    "kZoomIndicatorSpacingAboveButtonBar"; "kScaleBarSpacingAboveButtonBar"; "kZoomControlsSpacingAboveButtonBar";
    "kClientName"; "kSuspectedLocationsCsvUrl"; "kEnableDevelopmentModes"; "kEnableNodeEdits"; "kEnableNodeExtraction";
    "kNodeMinZoomLevel"; "kOsmApiMinZoomLevel"; "kMarkerTapTimeout"; "kDebounceCameraRefresh";
    "kPreFetchAreaExpansionMultiplier"; "kPreFetchZoomLevel"; "kMaxPreFetchSplitDepth"; "kDataRefreshIntervalSeconds";
    "kFollowMeAnimationDuration"; "kMinSpeedForRotationMps"; "kProximityAlertDefaultDistance";
    "kProximityAlertMinDistance"; "kProximityAlertMaxDistance"; "kProximityAlertCooldown";
    "kNodeDoubleTapZoomDelta"; "kScrollWheelVelocity"; "kPinchZoomThreshold"; "kPinchMoveThreshold"; "kRotationThreshold";
    "kTileFetchMaxAttempts"; "kTileFetchInitialDelayMs"; "kTileFetchBackoffMultiplier"; "kTileFetchMaxDelayMs";
    "kTileFetchRandomJitterMs"; "kMaxUserDownloadZoomSpan"; "kMaxReasonableTileCount"; "kAbsoluteMaxTileCount";
    "kAbsoluteMaxZoom"; "kNodeIconDiameter"; "kNodeDotOpacity"; "kNodeRingColorReal"; "kNodeRingColorMock";
    "kNodeRingColorPending"; "kNodeRingColorEditing"; "kNodeRingColorPendingEdit"; "kNodeRingColorPendingDeletion";
    "kDirectionButtonMinWidth"; "kDirectionButtonMinHeight"
  ]%string.

(** The pieces the patterns are made of *)
Definition chr (a : ascii) : char := N_of_ascii a.
Definition literal (s : string) : pattern := re_escape (text s).  (* the text s *)
Definition spaces1 : atom := Many is_space 1 false.               (* \s+ *)
Definition spaces0 : atom := Many is_space 0 false.               (* \s* *)
Definition word_group : atom := Many is_word 1 true.              (* (\w+) *)
Definition not_rparen0 : atom := Many (is_not (chr ")")) 0 false. (* [^)]* *)

(** Pattern 1: [\bconst\s+(\w+)\s+(\w+)\s*=\s*{re.escape(constant)}\s*;] *)
Definition pattern1 (constant : str) : pattern :=
  [Boundary] ++ literal "const" ++ [spaces1; word_group; spaces1; word_group; spaces0; Lit (chr "=");
  spaces0] ++ re_escape constant ++ [spaces0; Lit (chr ";")].

(** [final \1 \2 = dev.{constant};] *)
Definition replacement1 (constant : str) : template :=
  [TText (text "final "); TGroup 1; TText (text " "); TGroup 2; TText (text " = dev.");
   TText constant; TText (text ";")].

(** Pattern 2: [\bstatic\s+const\s+(\w+)\s+(\w+)\s*=\s*{re.escape(constant)}\s*;] *)
Definition pattern2 (constant : str) : pattern :=
  [Boundary] ++ literal "static" ++ [spaces1] ++ literal "const" ++
  [spaces1; word_group; spaces1; word_group; spaces0; Lit (chr "="); spaces0] ++
  re_escape constant ++ [spaces0; Lit (chr ";")].

(** [static final \1 \2 = dev.{constant};] *)
Definition replacement2 (constant : str) : template :=
  [TText (text "static final "); TGroup 1; TText (text " "); TGroup 2; TText (text " = dev.");
   TText constant; TText (text ";")].

(** Pattern 3: [\bconst\s+(\w+)\s*\([^)]*{re.escape(constant)}[^)]*\)] *)
Definition const_constructor_pattern (constant : str) : pattern :=
  [Boundary] ++ literal "const" ++ [spaces1; word_group; spaces0; Lit (chr "("); not_rparen0] ++
  re_escape constant ++ [not_rparen0; Lit (chr ")")].

(** Pattern 4: [\b{re.escape(constant)}\b(?![\w.])] *)
Definition pattern4 (constant : str) : pattern :=
  [Boundary] ++ re_escape constant ++ [Boundary; NotAhead is_word_or_dot].

(** [dev.{constant}] *)
Definition replacement4 (constant : str) : template :=
  [TText (text "dev."); TText constant].

(** The body of the loop over [reversed(matches)]: the [const ] before
    the constructor name is taken out of the matched text, and the text
    is put back at the offsets of the match. *)
Definition remove_const (content : str) (m : match_object) : str :=
  let full_match := m_text m in
  let constructor_name := group m 1 in
  let replacement :=
    replace_first (text "const " ++ constructor_name) constructor_name full_match in
  firstn (m_start m) content ++ replacement ++ skipn (m_end m) content.

(** Lines 96-113 of the source: pattern 3 *)
Definition const_constructor_rule (content constant : str) : str :=
  let matches := re_finditer (const_constructor_pattern constant) content in
  fold_left remove_const (rev matches) content.

(** Process a single constant in file content, handling const issues *)
Definition process_constant_in_content (content constant : str) : Out (str * bool) :=
  let original_content := content in
  (* Skip if already using dev.constant (idempotent) *)
  if contains (text "dev." ++ constant) content then ret (content, false)
  (* Skip if constant not found at all *)
  else if negb (contains constant content) then ret (content, false)
  else
    print (Replacing constant) ;;;
    let content := re_sub (pattern1 constant) (replacement1 constant) content in
    let content := re_sub (pattern2 constant) (replacement2 constant) content in
    let content := const_constructor_rule content constant in
    let content := re_sub (pattern4 constant) (replacement4 constant) content in
    ret (content, negb (str_eqb content original_content)).

(** The loop of [process_file] over the constants: the content is
    threaded through the engine, constant after constant, and the
    constants that changed it are collected. *)
Definition process_constants (content : str) : Out (str * list str) :=
  fold_left
    (fun acc constant =>
       st <- acc ;;
       r <- process_constant_in_content (fst st) constant ;;
       ret (fst r, if snd r then snd st ++ [constant] else snd st))
    CONSTANTS (ret (content, [])).

(** Whether the text ends with a word character: what [\b] sees
    before the position that follows it. *)
Definition last_is_word (s : str) : bool := head_is_word (rev s).

(** What [\b] sees before a position once the text [u] has been passed,
    when it saw [before] at the start of [u]. *)
Definition passed (before : bool) (u : str) : bool :=
  fold_left (fun _ x => is_word x) u before.

(** Whether the text starts with a word character or a dot: what the
    look-ahead of pattern 4 refuses. *)
Definition head_is_word_or_dot (s : str) : bool :=
  match s with
  | [] => false
  | x :: _ => is_word_or_dot x
  end.

(** What the loop over the matches of pattern 3 puts in the place of a
    match: the matched text without the first [const ] that is followed
    by the constructor name. *)
Definition const_taken_out (full_match : str) (groups : list str) : str :=
  replace_first (text "const " ++ nth 0 groups []) (nth 0 groups []) full_match.

(** A constant of the shape the registry holds: not empty, word
    characters only. *)
Definition identifier (constant : str) : Prop :=
  constant <> [] /\ forallb is_word constant = true.

(** White space, as [\s*] takes it *)
Definition blank (ws : str) : Prop := forallb is_space ws = true.

(** [d] is a declaration [const Type name = constant;] of the type
    [type] and the name [name], with any white space between its
    parts: what pattern 1 matches. *)
Definition declaration (constant type name d : str) : Prop :=
  exists ws1 ws2 ws3 ws4 ws5,
    d = text "const" ++ ws1 ++ type ++ ws2 ++ name ++ ws3 ++ text "=" ++ ws4 ++ constant
        ++ ws5 ++ text ";" /\
    identifier type /\ identifier name /\
    ws1 <> [] /\ blank ws1 /\ ws2 <> [] /\ blank ws2 /\
    blank ws3 /\ blank ws4 /\ blank ws5.

(** *** Reading and writing *)

Section Files.

(** The file system is whatever the operating system makes of it: the
    script sees the tree below the working directory, reads a file as
    UTF-8 text and writes one; reading and writing may raise. *)
Variable filesystem : Type.
Variable tree : filesystem -> list entry.
Variable read_file : filesystem -> str -> result str.
Variable write_file : filesystem -> str -> str -> filesystem * result unit.

(** A computation on the file system: its value, the file system it
    leaves, and what it did. *)
Definition IO (A : Type) : Type := filesystem -> A * filesystem * list event.

(** The three parts of an outcome *)
Definition value {A} (r : A * filesystem * list event) : A := fst (fst r).
Definition left_fs {A} (r : A * filesystem * list event) : filesystem := snd (fst r).
Definition trace {A} (r : A * filesystem * list event) : list event := snd r.

Definition io_ret {A} (a : A) : IO A := fun fs => (a, fs, []).

Definition io_bind {A B} (m : IO A) (f : A -> IO B) : IO B :=
  fun fs =>
    let '(a, fs1, t1) := m fs in
    let '(b, fs2, t2) := f a fs1 in
    (b, fs2, t1 ++ t2).

Notation "x <~ m ;; k" := (io_bind m (fun x => k))
  (at level 61, m at next level, right associativity).
Notation "m ~;; k" := (io_bind m (fun _ => k))
  (at level 61, right associativity).

Definition io_print (l : line) : IO unit := fun fs => (tt, fs, [EvPrint l]).

Definition io_out {A} (m : Out A) : IO A := fun fs => (returned m, fs, map EvPrint (printed m)).

(** [with open(filepath, 'r', encoding='utf-8') as f: f.read()] *)
Definition io_read (filepath : str) : IO (result str) :=
  fun fs => (read_file fs filepath, fs, [EvRead filepath]).

(** [with open(filepath, 'w', encoding='utf-8') as f: f.write(content)] *)
Definition io_write (filepath content : str) : IO (result unit) :=
  fun fs => let (fs', r) := write_file fs filepath content in (r, fs', [EvWrite filepath content]).

Definition io_tree : IO (list entry) := fun fs => (tree fs, fs, []).

(** Process a single dart file *)
Definition process_file (filepath : str) : IO bool :=
  io_print (Processing filepath) ~;;
  r <~ io_read filepath ;;
  match r with
  | Raised e => io_print (ErrorReading e) ~;; io_ret false
  | Ok content =>
      let original_content := content in
      st <~ io_out (process_constants content) ;;
      let content := fst st in
      let changes_made := snd st in
      (* Only write if something actually changed *)
      if negb (str_eqb content original_content) then
        w <~ io_write filepath content ;;
        match w with
        | Ok _ => io_print (Updated changes_made) ~;; io_ret true
        | Raised e => io_print (ErrorWriting e) ~;; io_ret false
        end
      else io_print NoChangesNeeded ~;; io_ret false
  end.

(** The loop of [main] over the files: the number of files for which
    [process_file] returned [True]. *)
Definition process_files (dart_files : list str) : IO nat :=
  fold_left
    (fun acc filepath =>
       updated_files <~ acc ;;
       b <~ process_file filepath ;;
       io_ret (if b then updated_files + 1 else updated_files))
    dart_files (io_ret 0).

Definition main : IO unit :=
  io_print Starting ~;;
  io_print Finding ~;;
  cwd <~ io_tree ;;
  let dart_files := find_dart_files cwd in
  io_print (Found (length dart_files)) ~;;
  match dart_files with
  | [] => io_print NoDartFiles ~;; io_ret tt
  | _ :: _ =>
      updated_files <~ process_files dart_files ;;
      io_print (Finished updated_files (length dart_files)) ~;;
      io_print NextSteps ~;;
      if 0 <? updated_files then io_print RunAgainHint else io_ret tt
  end.

End Files.

Arguments value {filesystem A} r.
Arguments left_fs {filesystem A} r.
Arguments trace {filesystem A} r.
Arguments io_ret {filesystem A} a _.
Arguments io_bind {filesystem A B} m f _.
Arguments io_print {filesystem} l _.
Arguments io_out {filesystem A} m _.
Arguments io_read {filesystem} read_file filepath _.
Arguments io_write {filesystem} write_file filepath content _.
Arguments io_tree {filesystem} tree _.
Arguments process_file {filesystem} read_file write_file filepath _.
Arguments process_files {filesystem} read_file write_file dart_files _.
Arguments main {filesystem} tree read_file write_file _.

(** * Properties *)

(** ** Text *)

Lemma char_eqb_eq (a b : char) : char_eqb a b = true <-> a = b.
Proof. apply N.eqb_eq. Qed.

Lemma char_eqb_refl (a : char) : char_eqb a a = true.
Proof. apply N.eqb_refl. Qed.

Lemma str_eqb_eq (a b : str) : str_eqb a b = true <-> a = b.
Proof.
  revert b; induction a as [|x a IH]; intros [|y b]; simpl; split; intro H;
    try reflexivity; try discriminate.
  - apply andb_true_iff in H as [Hx Ha].
    apply char_eqb_eq in Hx. apply IH in Ha. now subst.
  - injection H as -> ->. rewrite char_eqb_refl. now apply IH.
Qed.

Lemma str_eqb_refl (a : str) : str_eqb a a = true.
Proof. now apply str_eqb_eq. Qed.

Lemma str_eqb_neq (a b : str) : str_eqb a b = false <-> a <> b.
Proof.
  split.
  - intros H E. apply str_eqb_eq in E. congruence.
  - intro H. destruct (str_eqb a b) eqn:E; [|reflexivity].
    apply str_eqb_eq in E. contradiction.
Qed.

Lemma startswith_app (p r : str) : startswith p (p ++ r) = true.
Proof. induction p as [|x p IH]; simpl; [reflexivity|]. now rewrite char_eqb_refl. Qed.

Lemma startswith_spec (p s : str) : startswith p s = true <-> exists r, s = p ++ r.
Proof.
  split.
  - revert s; induction p as [|x p IH]; intros s H.
    + now exists s.
    + destruct s as [|y s]; simpl in H; [discriminate|].
      apply andb_true_iff in H as [Hx Hp]. apply char_eqb_eq in Hx; subst y.
      destruct (IH _ Hp) as [r ->]. now exists r.
  - intros [r ->]. apply startswith_app.
Qed.

Lemma contains_startswith (sub s : str) : startswith sub s = true -> contains sub s = true.
Proof. destruct s; simpl; intros ->; reflexivity. Qed.

Lemma contains_spec (sub s : str) : contains sub s = true <-> occurs sub s.
Proof.
  split.
  - induction s as [|x s IH]; simpl; intro H.
    + rewrite orb_false_r in H. apply startswith_spec in H as [r Hr].
      exists [], r. exact Hr.
    + apply orb_true_iff in H as [H|H].
      * apply startswith_spec in H as [r Hr]. exists [], r. exact Hr.
      * destruct (IH H) as (pre & post & ->). now exists (x :: pre), post.
  - intros (pre & post & ->). induction pre as [|x pre IH]; simpl.
    + apply contains_startswith, startswith_app.
    + rewrite IH. apply orb_true_r.
Qed.

Lemma contains_false (sub s : str) : contains sub s = false <-> ~ occurs sub s.
Proof.
  rewrite <- contains_spec. destruct (contains sub s); split; intro H; congruence.
Qed.

Lemma firstn_exact (A : Type) (u v : list A) : firstn (length u) (u ++ v) = u.
Proof. induction u as [|x u IH]; simpl; [now destruct v|now rewrite IH]. Qed.

Lemma skipn_exact (A : Type) (u v : list A) : skipn (length u) (u ++ v) = v.
Proof. induction u as [|x u IH]; simpl; [reflexivity|exact IH]. Qed.

Lemma split_at (A : Type) (k : nat) (s : list A) :
  k <= length s -> exists u v, s = u ++ v /\ length u = k.
Proof.
  intro H. exists (firstn k s), (skipn k s). split.
  - symmetry. apply firstn_skipn.
  - now apply firstn_length_le.
Qed.


(** ** File discovery *)

Lemma endswith_app (p x s : str) : endswith p s = true -> endswith p (x ++ s) = true.
Proof.
  unfold endswith. intro H. apply startswith_spec in H as [r Hr].
  apply startswith_spec. exists (r ++ rev x). now rewrite rev_app_distr, Hr, app_assoc.
Qed.

Lemma endswith_join (p top name : str) :
  endswith p name = true -> endswith p (os_path_join top name) = true.
Proof.
  intro H. unfold os_path_join.
  destruct (startswith (text "/") name); [exact H|].
  destruct (str_eqb top [] || endswith (text "/") top); [now apply endswith_app|].
  rewrite app_assoc. now apply endswith_app.
Qed.

Lemma files_of_in (entries : list entry) (name : str) :
  In name (files_of entries) <-> In (File name) entries.
Proof.
  unfold files_of. rewrite in_flat_map. split.
  - intros ([n|n sub] & Hin & H); simpl in H; [|contradiction].
    destruct H as [<-|[]]. exact Hin.
  - intro H. exists (File name). split; [exact H|now left].
Qed.

(** Induction on a tree, with the property known of the entries of a
    directory *)
Lemma entry_tree_ind (P : entry -> Prop) :
  (forall name, P (File name)) ->
  (forall name sub, Forall P sub -> P (Dir name sub)) ->
  forall e, P e.
Proof.
  intros Hfile Hdir. fix IH 1. intros [name|name sub]; [apply Hfile|].
  apply Hdir. revert sub. fix IHsub 1. intros [|e sub]; constructor; [apply IH|apply IHsub].
Qed.

Lemma walk_entry_is_os_walk (top name : str) (sub : list entry) :
  walk_entry top (Dir name sub) = os_walk (os_path_join top name) sub.
Proof. reflexivity. Qed.

(** Every file of a triple of the walk is a file of the tree. *)
Lemma os_walk_sound (entries : list entry) :
  forall top root dirs files name,
    In (root, dirs, files) (os_walk top entries) -> In name files ->
    file_in top entries (os_path_join root name) name.
Proof.
  assert (Hentry : forall e top root dirs files name,
             In (root, dirs, files) (walk_entry top e) -> In name files ->
             exists d sub, e = Dir d sub /\
                           file_in (os_path_join top d) sub (os_path_join root name) name).
  { induction e as [n|d sub IH] using entry_tree_ind;
      intros top root dirs files name Hin Hname; [contradiction|].
    exists d, sub. split; [reflexivity|].
    cbn [walk_entry] in Hin. destruct Hin as [Hin|Hin].
    - injection Hin as <- _ <-. apply file_here. now apply files_of_in.
    - apply in_flat_map in Hin as (e & He & Hin).
      rewrite Forall_forall in IH.
      destruct (IH e He _ _ _ _ _ Hin Hname) as (d' & sub' & -> & Hfile).
      now apply file_below with d' sub'. }
  intros top root dirs files name Hin Hname. unfold os_walk in Hin.
  destruct Hin as [Hin|Hin].
  - injection Hin as <- _ <-. apply file_here. now apply files_of_in.
  - apply in_flat_map in Hin as (e & He & Hin).
    destruct (Hentry e _ _ _ _ _ Hin Hname) as (d & sub & -> & Hfile).
    now apply file_below with d sub.
Qed.

(** Every file of the tree is a file of some triple of the walk. *)
Lemma os_walk_complete (top : str) (entries : list entry) (path name : str) :
  file_in top entries path name ->
  exists root dirs files,
    In (root, dirs, files) (os_walk top entries) /\ In name files /\
    path = os_path_join root name.
Proof.
  induction 1 as [top entries name Hin|top entries d sub path name Hin _ IH].
  - exists top, (dirs_of entries), (files_of entries).
    split; [now left|]. split; [now apply files_of_in|reflexivity].
  - destruct IH as (root & dirs & files & Hwalk & Hname & Hpath).
    exists root, dirs, files. split; [|now split].
    right. apply in_flat_map. exists (Dir d sub). split; [exact Hin|].
    now rewrite walk_entry_is_os_walk.
Qed.

(** X3.  [find_dart_files] returns the path of a file exactly when the name
    of the file ends with [.dart] and [dev_config.dart] is no piece of
    its path. *)
Theorem find_dart_files_spec (cwd : list entry) (path : str) :
  In path (find_dart_files cwd) <->
  exists name,
    file_in (text ".") cwd path name /\
    endswith (text ".dart") name = true /\
    ~ occurs (text "dev_config.dart") path.
Proof.
  unfold find_dart_files. rewrite in_flat_map. split.
  - intros ([[root dirs] files] & Hwalk & Hin).
    apply in_flat_map in Hin as (name & Hname & Hin).
    destruct (endswith (text ".dart") name) eqn:Hdart; [|contradiction].
    destruct (contains (text "dev_config.dart") (os_path_join root name)) eqn:Hdev;
      [contradiction|].
    destruct Hin as [<-|[]]. exists name.
    split; [now apply os_walk_sound with dirs files|].
    split; [exact Hdart|now apply contains_false].
  - intros (name & Hfile & Hdart & Hdev).
    apply os_walk_complete in Hfile as (root & dirs & files & Hwalk & Hname & ->).
    exists (root, dirs, files). split; [exact Hwalk|].
    apply in_flat_map. exists name. split; [exact Hname|].
    apply contains_false in Hdev. rewrite Hdart, Hdev. now left.
Qed.

(** What [find_dart_files] returns is safe to rewrite: a path that ends
    with [.dart] and of which [dev_config.dart] is no piece. *)
Lemma found_files_are_dart_files (cwd : list entry) (path : str) :
  In path (find_dart_files cwd) ->
  endswith (text ".dart") path = true /\ ~ occurs (text "dev_config.dart") path.
Proof.
  unfold find_dart_files. intro H.
  apply in_flat_map in H as ([[root dirs] files] & _ & Hin).
  apply in_flat_map in Hin as (name & _ & Hin).
  destruct (endswith (text ".dart") name) eqn:Hdart; [|contradiction].
  destruct (contains (text "dev_config.dart") (os_path_join root name)) eqn:Hdev;
    [contradiction|].
  destruct Hin as [<-|[]]. split; [now apply endswith_join|now apply contains_false].
Qed.

(** ** The regular expression engine *)

Lemma passed_app (before : bool) (u v : str) :
  passed before (u ++ v) = passed (passed before u) v.
Proof. apply fold_left_app. Qed.

Lemma passed_last (before : bool) (u : str) (x : char) :
  passed before (u ++ [x]) = is_word x.
Proof. now rewrite passed_app. Qed.

Lemma passed_false (u : str) : passed false u = last_is_word u.
Proof.
  destruct u as [|x u] using rev_ind; [reflexivity|].
  rewrite passed_last. unfold last_is_word. now rewrite rev_unit.
Qed.

Lemma passed_nonempty (b b' : bool) (u : str) : u <> [] -> passed b u = passed b' u.
Proof.
  destruct u as [|x u] using rev_ind; [congruence|].
  intros _. now rewrite !passed_last.
Qed.

Lemma passed_words (b : bool) (u : str) :
  u <> [] -> forallb is_word u = true -> passed b u = true.
Proof.
  destruct u as [|x u] using rev_ind; [congruence|].
  intros _ H. rewrite passed_last.
  rewrite forallb_app in H. apply andb_true_iff in H as [_ H].
  simpl in H. now rewrite andb_true_r in H.
Qed.

(** A literal text matches when the text starts with it. *)
Lemma run_literal (w : str) (p : pattern) (before : bool) (s : str) (n : nat)
  (groups : list str) :
  run (re_escape w ++ p) before s n groups =
  if startswith w s
  then run p (passed before w) (skipn (length w) s) (n + length w) groups
  else None.
Proof.
  revert before s n; induction w as [|c w IH]; intros before s n.
  - simpl. now rewrite Nat.add_0_r.
  - destruct s as [|x s]; [reflexivity|]. simpl.
    destruct (char_eqb x c) eqn:E; simpl.
    + apply char_eqb_eq in E; subst x. rewrite char_eqb_refl, IH. simpl.
      now rewrite Nat.add_succ_r.
    + assert (char_eqb c x = false) as ->; [|reflexivity].
      unfold char_eqb in *. now rewrite N.eqb_sym.
Qed.

(** A match consumes a prefix of the text, and counts it. *)
Lemma greedy_consumes (cls : char -> bool)
  (continue : bool -> str -> nat -> str -> option (nat * list str))
  (least : nat) (before : bool) (s : str) (n : nat) (taken : str) (r : nat * list str) :
  (forall b s' n' t r', continue b s' n' t = Some r' ->
                        exists u, s' = u ++ skipn (length u) s' /\ fst r' = n' + length u /\
                                  length u <= length s') ->
  greedy cls continue least before s n taken = Some r ->
  exists u, s = u ++ skipn (length u) s /\ fst r = n + length u /\ length u <= length s.
Proof.
  intros Hk. revert least before n taken.
  induction s as [|x s IH]; intros least before n taken H; simpl in H.
  - destruct least; [|discriminate]. apply (Hk _ _ _ _ _ H).
  - assert (Hstop : match least with
                    | 0 => continue before (x :: s) n taken
                    | S _ => None
                    end = Some r ->
                    exists u, x :: s = u ++ skipn (length u) (x :: s)
                              /\ fst r = n + length u /\ length u <= length (x :: s)).
    { destruct least; [|discriminate]. intro H'. apply (Hk _ _ _ _ _ H'). }
    destruct (cls x); [|now apply Hstop].
    destruct (greedy cls continue (pred least) (is_word x) s (S n) (x :: taken)) eqn:E;
      [|now apply Hstop].
    injection H as ->. apply IH in E as (u & Hu & Hn & Hl).
    exists (x :: u). simpl. split; [now rewrite <- Hu|]. split; lia.
Qed.

Lemma run_consumes (p : pattern) (before : bool) (s : str) (n : nat)
  (groups : list str) (r : nat * list str) :
  run p before s n groups = Some r ->
  exists u, s = u ++ skipn (length u) s /\ fst r = n + length u /\ length u <= length s.
Proof.
  revert before s n groups r; induction p as [|a p IH]; intros before s n groups r H.
  - injection H as <-. exists []. simpl. split; [reflexivity|]. split; lia.
  - destruct a as [c| |cls least capture|cls]; simpl in H.
    + destruct s as [|x s]; [discriminate|].
      destruct (char_eqb x c); [|discriminate].
      apply IH in H as (u & Hu & Hn & Hl).
      exists (x :: u). simpl. split; [now rewrite <- Hu|]. split; lia.
    + destruct (xorb before (head_is_word s)); [|discriminate]. now apply IH in H.
    + eapply greedy_consumes; [|exact H].
      intros b s' n' t r' H'. simpl in H'. now apply IH in H'.
    + destruct s as [|x s]; [now apply IH in H|].
      destruct (cls x); [discriminate|]. now apply IH in H.
Qed.

Lemma match_here_length (p : pattern) (before : bool) (s : str) (n : nat)
  (groups : list str) :
  match_here p before s = Some (n, groups) -> n <= length s.
Proof.
  unfold match_here. destruct (run p before s 0 []) as [[n' g]|] eqn:E; [|discriminate].
  intro H; injection H as -> _.
  apply run_consumes in E as (u & _ & Hn & Hl). simpl in Hn. lia.
Qed.

(** A pattern with a literal in it does not match the empty text. *)
Lemma greedy_advances (cls : char -> bool)
  (continue : bool -> str -> nat -> str -> option (nat * list str)) :
  (forall b s n t r, continue b s n t = Some r -> n < fst r) ->
  forall s least before n taken r,
    greedy cls continue least before s n taken = Some r -> n < fst r.
Proof.
  intros Hk. induction s as [|x s IH]; intros least before n taken r H; cbn [greedy] in H.
  - destruct least; [now apply Hk in H|discriminate].
  - assert (Hstop : match least with
                    | 0 => continue before (x :: s) n taken
                    | S _ => None
                    end = Some r -> n < fst r)
      by (destruct least; [apply Hk|discriminate]).
    destruct (cls x); [|now apply Hstop].
    destruct (greedy cls continue (pred least) (is_word x) s (S n) (x :: taken)) eqn:E;
      [|now apply Hstop].
    injection H as ->. apply IH in E. lia.
Qed.

Lemma run_advances (c : char) (p : pattern) :
  In (Lit c) p ->
  forall before s n groups r, run p before s n groups = Some r -> n < fst r.
Proof.
  induction p as [|a p IH]; intros Hin before s n groups r H; [contradiction|].
  destruct a as [c'| |cls least capture|cls]; cbn [run] in H.
  - destruct s as [|x s]; [discriminate|]. destruct (char_eqb x c'); [|discriminate].
    apply run_consumes in H as (u & _ & Hn & _). lia.
  - destruct Hin as [Hin|Hin]; [discriminate|].
    destruct (xorb before (head_is_word s)); [|discriminate]. now apply IH in H.
  - destruct Hin as [Hin|Hin]; [discriminate|].
    apply greedy_advances in H; [exact H|].
    intros b s' n' t r' H'. now apply IH in H'.
  - destruct Hin as [Hin|Hin]; [discriminate|].
    destruct s as [|x s]; [now apply IH in H|].
    destruct (cls x); [discriminate|]. now apply IH in H.
Qed.

Lemma match_here_not_empty (c : char) (p : pattern) (before : bool) (s : str)
  (groups : list str) :
  In (Lit c) p -> match_here p before s <> Some (0, groups).
Proof.
  intros Hin. unfold match_here.
  destruct (run p before s 0 []) as [[n g]|] eqn:E; [|discriminate].
  apply (run_advances c p Hin) in E. simpl in E. intro H. injection H as -> _. lia.
Qed.

(** Passing the characters of a match leads to the position after it. *)
Lemma sub_from_skip (p : pattern) (repl : str -> list str -> str) (before : bool)
  (u v : str) :
  sub_from p repl before (u ++ v) (length u) = sub_from p repl (passed before u) v 0.
Proof.
  revert before; induction u as [|x u IH]; intros before; simpl; [|apply IH].
  now destruct v.
Qed.

Lemma finditer_from_skip (p : pattern) (pos : nat) (before : bool) (u v : str) :
  finditer_from p pos before (u ++ v) (length u) =
  finditer_from p (pos + length u) (passed before u) v 0.
Proof.
  revert pos before; induction u as [|x u IH]; intros pos before; simpl.
  - rewrite Nat.add_0_r. now destruct v.
  - rewrite IH. now rewrite Nat.add_succ_r.
Qed.

(** Replacing the matches at their offsets, last match first, builds
    the text that the search loop builds from left to right: an offset
    found in the old text is still right when only the text behind it
    has changed. *)
Lemma splice_backward (p : pattern) (f : str -> list str -> str) (n : nat) :
  forall s, length s <= n ->
  forall done before,
    fold_left
      (fun content m =>
         firstn (m_start m) content ++ f (m_text m) (m_groups m) ++ skipn (m_end m) content)
      (rev (finditer_from p (length done) before s 0)) (done ++ s)
    = done ++ sub_from p f before s 0.
Proof.
  induction n as [|n IH]; intros s Hs done before.
  - destruct s; [reflexivity|simpl in Hs; lia].
  - destruct s as [|x s]; [reflexivity|].
    simpl finditer_from. simpl sub_from.
    assert (Hnone :
      fold_left
        (fun content m =>
           firstn (m_start m) content ++ f (m_text m) (m_groups m) ++ skipn (m_end m) content)
        (rev (finditer_from p (S (length done)) (is_word x) s 0)) (done ++ x :: s)
      = done ++ x :: sub_from p f (is_word x) s 0).
    { specialize (IH s ltac:(simpl in Hs; lia) (done ++ [x]) (is_word x)).
      rewrite length_app, Nat.add_1_r, <- !app_assoc in IH. exact IH. }
    destruct (match_here p before (x :: s)) as [[[|k] groups]|] eqn:E; try exact Hnone.
    clear Hnone. apply match_here_length in E. simpl in E, Hs.
    destruct (split_at _ k s ltac:(lia)) as (u & v & -> & <-).
    rewrite finditer_from_skip, sub_from_skip.
    simpl rev. rewrite fold_left_app. simpl fold_left.
    rewrite length_app in Hs.
    specialize (IH v ltac:(lia) (done ++ x :: u) (passed (is_word x) u)).
    replace (length (done ++ x :: u)) with (S (length done) + length u) in IH
      by (rewrite length_app; simpl; lia).
    replace (done ++ x :: u ++ v) with ((done ++ x :: u) ++ v)
      by (now rewrite <- app_assoc).
    change (S (length done) + length u) with (S (length done + length u)) in IH.
    rewrite IH, <- app_assoc, firstn_exact.
    replace (length done + S (length u)) with (length (done ++ x :: u))
      by (rewrite length_app; simpl; lia).
    replace (done ++ (x :: u) ++ sub_from p f (passed (is_word x) u) v 0)
      with ((done ++ x :: u) ++ sub_from p f (passed (is_word x) u) v 0)
      by (now rewrite <- app_assoc).
    now rewrite skipn_exact.
Qed.

(** ** The rules of the rewrite engine *)

Lemma is_word_not_space (c : char) : is_word c = true -> is_space c = false.
Proof. unfold is_word, is_space. now destruct (class_of c). Qed.

Lemma head_is_word_app (k r : str) :
  k <> [] -> forallb is_word k = true -> head_is_word (k ++ r) = true.
Proof.
  destruct k as [|x k]; [congruence|]. simpl. intros _ H.
  now apply andb_true_iff in H as [H _].
Qed.

(** Pattern 3, run from left to right *)
Lemma const_constructor_rule_forward (content constant : str) :
  const_constructor_rule content constant =
  sub_from (const_constructor_pattern constant) const_taken_out false content 0.
Proof.
  unfold const_constructor_rule, re_finditer.
  exact (splice_backward (const_constructor_pattern constant) const_taken_out
           (length content) content (le_n _) [] false).
Qed.

(** Pattern 4 matches a whole-word occurrence of the constant that is
    not followed by a dot, and nothing else. *)
Lemma match_pattern4 (k : str) (before : bool) (s : str) :
  identifier k ->
  match_here (pattern4 k) before s =
  if negb before && startswith k s && negb (head_is_word_or_dot (skipn (length k) s))
  then Some (length k, [])
  else None.
Proof.
  intros [Hne Hw]. unfold match_here, pattern4.
  change ([Boundary] ++ re_escape k ++ [Boundary; NotAhead is_word_or_dot])
    with (Boundary :: (re_escape k ++ [Boundary; NotAhead is_word_or_dot])).
  cbn [run]. rewrite run_literal.
  destruct (startswith k s) eqn:E.
  - apply startswith_spec in E as [r ->].
    rewrite head_is_word_app, skipn_exact, (passed_words before k) by assumption.
    destruct before; [reflexivity|]. cbn [xorb negb andb run].
    destruct r as [|y r]; [reflexivity|]. cbn [head_is_word head_is_word_or_dot xorb].
    unfold is_word_or_dot. now destruct (is_word y), (char_eqb y 46%N).
  - rewrite andb_false_r. now destruct (xorb before (head_is_word s)).
Qed.

Lemma expand_replacement4 (k : str) (groups : list str) :
  expand (replacement4 k) groups = text "dev." ++ k.
Proof. simpl. now rewrite app_nil_r. Qed.

(** One step of the search loop with pattern 4 *)
Lemma sub_pattern4_step (k : str) (before : bool) (x : char) (s : str) :
  identifier k ->
  sub_from (pattern4 k) (fun _ groups => expand (replacement4 k) groups) before (x :: s) 0 =
  if negb before && startswith k (x :: s)
     && negb (head_is_word_or_dot (skipn (length k) (x :: s)))
  then (text "dev." ++ k)
       ++ sub_from (pattern4 k) (fun _ groups => expand (replacement4 k) groups)
            (is_word x) s (pred (length k))
  else x :: sub_from (pattern4 k) (fun _ groups => expand (replacement4 k) groups)
              (is_word x) s 0.
Proof.
  intro Hk. cbn [sub_from]. rewrite (match_pattern4 k before (x :: s) Hk).
  destruct (negb before && startswith k (x :: s)
            && negb (head_is_word_or_dot (skipn (length k) (x :: s)))); [|reflexivity].
  destruct Hk as [Hne _]. destruct k as [|c k]; [congruence|].
  cbn [length pred]. now rewrite expand_replacement4.
Qed.

(** No word that ends before a character other than a word character
    or a dot starts with the characters of [dev.]. *)
Lemma dev_prefix_blocks (w post z : str) :
  forallb is_word w = true ->
  w ++ post = text "dev." ++ z ->
  head_is_word_or_dot post = true.
Proof.
  intros Hw E. cbn in E.
  destruct w as [|a [|b [|c [|d w]]]]; cbn in E.
  - subst post. reflexivity.
  - injection E as _ ->. reflexivity.
  - injection E as _ _ ->. reflexivity.
  - injection E as _ _ _ ->. reflexivity.
  - injection E as _ _ _ -> _.
    cbn [forallb] in Hw. rewrite !andb_true_iff in Hw.
    destruct Hw as (_ & _ & _ & Hd & _). discriminate Hd.
Qed.

(** A word at the start of the new text, ending before a character
    other than a word character or a dot, stood at the start of the old
    text, before the same kind of character. *)
Lemma kept_prefix (k w : str) :
  identifier k -> forallb is_word w = true ->
  forall s before post,
    sub_from (pattern4 k) (fun _ groups => expand (replacement4 k) groups) before s 0
    = w ++ post ->
    head_is_word_or_dot post = false ->
    exists post', s = w ++ post' /\ head_is_word_or_dot post' = false.
Proof.
  intros Hk. induction w as [|a w IH]; intros Hw s before post E Hpost.
  - destruct s as [|x s]; [now exists []|].
    rewrite sub_pattern4_step in E by assumption.
    destruct (negb before && startswith k (x :: s)
              && negb (head_is_word_or_dot (skipn (length k) (x :: s)))).
    + rewrite <- app_assoc in E. symmetry in E.
      apply (dev_prefix_blocks [] post _ eq_refl) in E. congruence.
    + exists (x :: s). split; [reflexivity|]. simpl in E. now subst post.
  - destruct s as [|x s]; [discriminate|].
    rewrite sub_pattern4_step in E by assumption.
    destruct (negb before && startswith k (x :: s)
              && negb (head_is_word_or_dot (skipn (length k) (x :: s)))).
    + rewrite <- app_assoc in E. symmetry in E.
      apply (dev_prefix_blocks (a :: w) post _ Hw) in E. congruence.
    + simpl in E. injection E as -> E.
      cbn [forallb] in Hw. apply andb_true_iff in Hw as [_ Hw].
      destruct (IH Hw s (is_word a) post E Hpost) as (post' & -> & H').
      now exists post'.
Qed.

(** A piece cut from the start of [dev.{constant}] that does not end
    with a word character is empty or is [dev.]. *)
Lemma cut_of_replacement (k pre l : str) :
  forallb is_word k = true ->
  text "dev." ++ k = pre ++ l ->
  passed false pre = false ->
  pre = [] \/ pre = text "dev.".
Proof.
  intros Hw E Hpre. cbn in E.
  destruct pre as [|a [|b [|c [|d pre]]]]; cbn in E.
  - now left.
  - injection E as <- _. discriminate Hpre.
  - injection E as <- <- _. discriminate Hpre.
  - injection E as <- <- <- _. discriminate Hpre.
  - injection E as <- <- <- <- E. destruct pre as [|e pre]; [now right|].
    exfalso. subst k. rewrite forallb_app in Hw. apply andb_true_iff in Hw as [Hw _].
    change (100 :: 101 :: 118 :: 46 :: e :: pre)%N
      with ([100; 101; 118; 46]%N ++ e :: pre) in Hpre.
    rewrite passed_app, (passed_words _ (e :: pre)) in Hpre; [discriminate|discriminate|exact Hw].
Qed.

(** In what pattern 4 makes of a text, a whole-word occurrence of the
    constant that is not followed by a dot stands behind [dev.].
    [seen] is what [\b] sees before the new text: the same as before
    the old text at a position of the search, a word character while
    the characters of a match are passed. *)
Lemma usages_qualified_from (k : str) :
  identifier k ->
  forall s before skip seen,
    (skip = 0 /\ seen = before) \/
    (skip <> 0 /\ seen = true /\ forallb is_word (firstn skip s) = true /\ skip <= length s) ->
    forall pre post,
      sub_from (pattern4 k) (fun _ groups => expand (replacement4 k) groups) before s skip
      = pre ++ k ++ post ->
      passed seen pre = false ->
      head_is_word_or_dot post = false ->
      exists pre', pre = pre' ++ text "dev.".
Proof.
  intros Hk. pose proof Hk as [Hne Hw].
  induction s as [|x s IH]; intros before skip seen Inv pre post E Hpre Hpost.
  - exfalso. destruct skip; simpl in E; destruct pre; destruct k; simpl in E; congruence.
  - destruct skip as [|j].
    + destruct Inv as [[_ ->]|[H _]]; [|congruence].
      rewrite sub_pattern4_step in E by assumption.
      destruct (negb before && startswith k (x :: s)
                && negb (head_is_word_or_dot (skipn (length k) (x :: s)))) eqn:C.
      * apply andb_true_iff in C as [C _]. apply andb_true_iff in C as [Hb Hs].
        apply negb_true_iff in Hb; subst before.
        apply startswith_spec in Hs as [r Hs].
        apply app_eq_app in E as [l [[E1 E2]|[E1 E2]]].
        -- destruct (cut_of_replacement k pre l Hw E1 Hpre) as [->| ->].
           ++ exfalso. change ([] ++ l) with l in E1. subst l. rewrite <- app_assoc in E2.
              apply dev_prefix_blocks in E2; [congruence|assumption].
           ++ now exists [].
        -- destruct k as [|c k']; [congruence|]. injection Hs as -> ->.
           cbn [forallb] in Hw. apply andb_true_iff in Hw as [Hc Hw'].
           cbn [length pred] in E2.
           assert (Hl : passed true l = false).
           { subst pre. rewrite passed_app in Hpre.
             rewrite (passed_app _ (text "dev.")), (passed_words _ (c :: k')) in Hpre;
               [exact Hpre|discriminate|].
             cbn [forallb]. now rewrite Hc, Hw'. }
           destruct (IH (is_word c) (length k') true) with (pre := l) (post := post)
             as [l' ->]; try assumption.
           { destruct k' as [|c' k'']; [left; now rewrite Hc|right].
             split; [discriminate|]. split; [reflexivity|].
             rewrite firstn_exact, length_app. split; [exact Hw'|lia]. }
           exists ((text "dev." ++ c :: k') ++ l'). subst pre. now rewrite <- !app_assoc.
      * destruct pre as [|y pre].
        -- exfalso. simpl in Hpre. subst before.
           destruct k as [|c k']; [congruence|]. cbn [app] in E. injection E as -> E.
           cbn [forallb] in Hw. apply andb_true_iff in Hw as [_ Hw'].
           destruct (kept_prefix (c :: k') k' Hk Hw' s (is_word c) post E Hpost)
             as (post' & -> & H').
           change (c :: k' ++ post') with ((c :: k') ++ post') in C.
           rewrite startswith_app, skipn_exact, H' in C. discriminate C.
        -- cbn [app] in E. injection E as -> E. simpl in Hpre.
           destruct (IH (is_word y) 0 (is_word y)) with (pre := pre) (post := post)
             as [pre' ->]; try assumption; [now left|].
           now exists (y :: pre').
    + destruct Inv as [[H _]|(_ & -> & Hf & Hl)]; [discriminate|].
      cbn [sub_from] in E. cbn [firstn forallb] in Hf.
      apply andb_true_iff in Hf as [Hx Hf]. simpl in Hl.
      apply (IH (is_word x) j true) with (post := post); try assumption.
      destruct j as [|j]; [left; now rewrite Hx|right].
      split; [discriminate|]. split; [reflexivity|]. split; [exact Hf|lia].
Qed.

(** *** Greedy repetition *)

(** When the rest of the pattern matches after the whole run of
    characters of the class, that is the match. *)
Lemma greedy_first (cls : char -> bool)
  (continue : bool -> str -> nat -> str -> option (nat * list str))
  (a s' : str) (r : nat * list str) :
  forallb cls a = true ->
  match s' with [] => true | y :: _ => negb (cls y) end = true ->
  forall least before n taken,
    least <= length a ->
    continue (passed before a) s' (n + length a) (rev a ++ taken) = Some r ->
    greedy cls continue least before (a ++ s') n taken = Some r.
Proof.
  intros Ha Hs'. induction a as [|x a IH]; intros least before n taken Hl Hk.
  - simpl in Hl, Hk. rewrite Nat.add_0_r in Hk.
    assert (least = 0) as -> by lia.
    destruct s' as [|y s']; simpl; [exact Hk|].
    apply negb_true_iff in Hs'. now rewrite Hs'.
  - cbn [forallb] in Ha. apply andb_true_iff in Ha as [Hx Ha].
    cbn [app greedy]. rewrite Hx.
    rewrite (IH Ha (pred least) (is_word x) (S n) (x :: taken)); [reflexivity| |].
    + simpl in Hl. lia.
    + cbn [length rev] in Hk. rewrite <- app_assoc, Nat.add_succ_r in Hk. exact Hk.
Qed.



(** *** Pattern 3 on a construction site *)






(** The search loop over a piece of text in which nothing matches *)
Lemma sub_from_no_match (p : pattern) (f : str -> list str -> str) (rest : str) :
  forall pre before,
    (forall p1 p2, pre = p1 ++ p2 -> p2 <> [] ->
                   match_here p (passed before p1) (p2 ++ rest) = None) ->
    sub_from p f before (pre ++ rest) 0 = pre ++ sub_from p f (passed before pre) rest 0.
Proof.
  induction pre as [|x pre IH]; intros before H; [reflexivity|].
  pose proof (H [] (x :: pre) eq_refl ltac:(discriminate)) as H0.
  cbn [app passed fold_left] in H0. cbn [app sub_from]. rewrite H0.
  rewrite IH; [reflexivity|].
  intros p1 p2 E Hne. apply (H (x :: p1) p2); [now rewrite E|exact Hne].
Qed.

(** The search loop at a match *)
Lemma sub_from_match (p : pattern) (f : str -> list str -> str) (before : bool)
  (m rest : str) (groups : list str) :
  m <> [] ->
  match_here p before (m ++ rest) = Some (length m, groups) ->
  sub_from p f before (m ++ rest) 0 = f m groups ++ sub_from p f (passed before m) rest 0.
Proof.
  destruct m as [|x m]; [congruence|]. intros _ H.
  cbn [app sub_from]. cbn [app length] in H. rewrite H.
  change (firstn (S (length m)) (x :: m ++ rest)) with (x :: firstn (length m) (m ++ rest)).
  now rewrite firstn_exact, sub_from_skip.
Qed.

(** ** The rewrite engine *)

(** The constants of the registry are identifiers. *)
Lemma registry_identifiers (constant : str) : In constant CONSTANTS -> identifier constant.
Proof.
  assert (H : forallb (fun k => match k with [] => false | _ => forallb is_word k end)
                CONSTANTS = true) by (vm_compute; reflexivity).
  intro Hin. rewrite forallb_forall in H. specialize (H constant Hin).
  destruct constant; [discriminate|]. split; [discriminate|exact H].
Qed.

(** The three ways through the engine. *)
Lemma process_constant_in_content_cases (content constant : str) :
  process_constant_in_content content constant =
  if contains (text "dev." ++ constant) content then ((content, false), [])
  else if negb (contains constant content) then ((content, false), [])
  else
    let content' :=
      re_sub (pattern4 constant) (replacement4 constant)
        (const_constructor_rule
           (re_sub (pattern2 constant) (replacement2 constant)
              (re_sub (pattern1 constant) (replacement1 constant) content))
           constant) in
    ((content', negb (str_eqb content' content)), [Replacing constant]).
Proof.
  unfold process_constant_in_content.
  destruct (contains (text "dev." ++ constant) content); [reflexivity|].
  destruct (negb (contains constant content)); reflexivity.
Qed.

(** The two guards at the head of the engine *)
Lemma engine_skips (content constant : str) :
  occurs (text "dev." ++ constant) content \/ ~ occurs constant content ->
  process_constant_in_content content constant = ((content, false), []).
Proof.
  intros H. rewrite process_constant_in_content_cases.
  destruct (contains (text "dev." ++ constant) content) eqn:Hdev; [reflexivity|].
  destruct H as [H|H].
  - apply contains_spec in H. congruence.
  - apply contains_false in H. now rewrite H.
Qed.

(** C6.  If the content already contains [dev.{constant}],
    or does not contain the constant at all, the engine returns the
    content as it is with [changed = False]; it applies no rule, and so
    prints no [Replacing] line. *)
Theorem short_circuit (content constant : str) :
  occurs (text "dev." ++ constant) content \/ ~ occurs constant content ->
  returned (process_constant_in_content content constant) = (content, false) /\
  printed (process_constant_in_content content constant) = [].
Proof.
  intros H. rewrite (engine_skips content constant H). now split.
Qed.


(** C3.  When the content does not yet contain
    [dev.{constant}], every whole-word occurrence of the constant in
    the result of the engine that is not followed by a dot stands
    behind [dev.]. *)
Theorem bare_usages_are_qualified (content constant pre post : str) :
  In constant CONSTANTS ->
  ~ occurs (text "dev." ++ constant) content ->
  fst (returned (process_constant_in_content content constant)) = pre ++ constant ++ post ->
  last_is_word pre = false ->
  head_is_word_or_dot post = false ->
  exists pre', pre = pre' ++ text "dev.".
Proof.
  intros Hin Hnew E Hpre Hpost. apply registry_identifiers in Hin.
  rewrite process_constant_in_content_cases in E.
  apply contains_false in Hnew. rewrite Hnew in E.
  destruct (contains constant content) eqn:Hc; cbn [negb] in E.
  - cbv zeta in E. unfold returned in E. cbn [fst] in E. unfold re_sub at 1 in E.
    apply (usages_qualified_from constant Hin _ false 0 false (or_introl (conj eq_refl eq_refl))
             pre post E); [|exact Hpost].
    now rewrite passed_false.
  - exfalso. apply contains_false in Hc. apply Hc. now exists pre, post.
Qed.


(** C1.  On the declaration [const int kFoo = kDirectionConeHalfAngle;],
    pattern 1 alone gives [final int kFoo = dev.kDirectionConeHalfAngle;]; pattern 4
    then matches the constant it finds behind [dev.] and qualifies it a
    second time, and that is what the engine returns. *)
Theorem declaration_is_qualified_twice :
  re_sub (pattern1 (text "kDirectionConeHalfAngle"))
    (replacement1 (text "kDirectionConeHalfAngle"))
    (text "const int kFoo = kDirectionConeHalfAngle;")
  = text "final int kFoo = dev.kDirectionConeHalfAngle;" /\
  re_sub (pattern4 (text "kDirectionConeHalfAngle"))
    (replacement4 (text "kDirectionConeHalfAngle"))
    (text "final int kFoo = dev.kDirectionConeHalfAngle;")
  = text "final int kFoo = dev.dev.kDirectionConeHalfAngle;" /\
  returned (process_constant_in_content
              (text "const int kFoo = kDirectionConeHalfAngle;")
              (text "kDirectionConeHalfAngle"))
  = (text "final int kFoo = dev.dev.kDirectionConeHalfAngle;", true).
Proof. repeat split; vm_compute; reflexivity. Qed.

(** C4.  The only occurrence of
    [kNodeRingColorPending] in the content lies inside
    [kNodeRingColorPendingEdit], and the engine run for the shorter
    constant changes the content: pattern 3 looks for the constant as a
    piece of text and takes the [const] away. *)
Theorem longer_identifier_loses_const :
  returned (process_constant_in_content
              (text "const Foo(kNodeRingColorPendingEdit)")
              (text "kNodeRingColorPending"))
  = (text "Foo(kNodeRingColorPendingEdit)", true).
Proof. vm_compute. reflexivity. Qed.

(** X2.  Pattern 4 matches at a position exactly when the constant stands
    there with no word character before it and neither a word character
    nor a dot behind it; the match is the constant. *)
Theorem pattern4_matches_whole_words (constant : str) (before : bool) (s : str)
  (r : nat * list str) :
  identifier constant ->
  match_here (pattern4 constant) before s = Some r <->
  before = false /\
  (exists rest, s = constant ++ rest /\ head_is_word_or_dot rest = false) /\
  r = (length constant, []).
Proof.
  intros Hk. rewrite (match_pattern4 constant before s Hk). split.
  - destruct (negb before && startswith constant s
              && negb (head_is_word_or_dot (skipn (length constant) s))) eqn:C;
      [|discriminate].
    intro H; injection H as <-.
    apply andb_true_iff in C as [C Hrest]. apply andb_true_iff in C as [Hb Hs].
    apply negb_true_iff in Hb, Hrest. apply startswith_spec in Hs as [rest ->].
    rewrite skipn_exact in Hrest. split; [exact Hb|]. split; [|reflexivity].
    now exists rest.
  - intros (-> & (rest & -> & Hrest) & ->).
    now rewrite startswith_app, skipn_exact, Hrest.
Qed.

(** One pass over all the constants on a construction site with two
    constants in its arguments: the [const] is taken away once and both
    constants are qualified. *)
Theorem cone_after_one_pass :
  fst (returned (process_constants
                   (text "const Cone(kDirectionConeHalfAngle, color: kDirectionConeColor)")))
  = text "Cone(dev.kDirectionConeHalfAngle, color: dev.kDirectionConeColor)".
Proof. vm_compute. reflexivity. Qed.

(** The loop over the constants on a content that holds none of them *)
Lemma constants_absent (content : str) (constants : list str) :
  (forall k, In k constants -> ~ occurs k content) ->
  fold_left
    (fun acc constant =>
       st <- acc ;;
       r <- process_constant_in_content (fst st) constant ;;
       ret (fst r, if snd r then snd st ++ [constant] else snd st))
    constants (ret (content, []))
  = ret (content, []).
Proof.
  induction constants as [|k constants IH]; intro H; [reflexivity|].
  cbn [fold_left].
  assert (Hstep :
    (st <- ret (content, []) ;;
     r <- process_constant_in_content (fst st) k ;;
     ret (fst r, if snd r then snd st ++ [k] else snd st))
    = ret (content, [])).
  { unfold bind, ret. cbn [fst snd].
    now rewrite (engine_skips content k (or_intror (H k (or_introl eq_refl)))). }
  rewrite Hstep. apply IH. intros k' Hk'. apply H. now right.
Qed.

(** X1.  A content that holds none of the constants of the registry goes
    through the loop of [process_file] as it is: no constant is
    reported, and nothing is printed. *)
Theorem unrelated_text_is_kept (content : str) :
  (forall k, In k CONSTANTS -> ~ occurs k content) ->
  returned (process_constants content) = (content, []) /\
  printed (process_constants content) = [].
Proof.
  intro H. unfold process_constants. now rewrite constants_absent.
Qed.

(** One pass over all the constants qualifies a bare usage. *)
Theorem bare_usage_after_one_pass :
  returned (process_constants (text "double a = kScrollWheelVelocity * 2;"))
  = (text "double a = dev.kScrollWheelVelocity * 2;", [text "kScrollWheelVelocity"]).
Proof. vm_compute. reflexivity. Qed.

(** The flag the engine returns says whether the content changed. *)
Lemma changed_flag (content constant : str) :
  snd (returned (process_constant_in_content content constant)) = true <->
  fst (returned (process_constant_in_content content constant)) <> content.
Proof.
  rewrite process_constant_in_content_cases.
  destruct (contains (text "dev." ++ constant) content);
    [cbn; split; [discriminate|congruence]|].
  destruct (negb (contains constant content)); [cbn; split; [discriminate|congruence]|].
  cbv zeta. unfold returned. cbn [fst snd].
  rewrite negb_true_iff. apply str_eqb_neq.
Qed.

(** The engine prints nothing but its [Replacing] line. *)
Lemma engine_prints (content constant : str) :
  printed (process_constant_in_content content constant) = [] \/
  printed (process_constant_in_content content constant) = [Replacing constant].
Proof.
  rewrite process_constant_in_content_cases.
  destruct (contains (text "dev." ++ constant) content); [now left|].
  destruct (negb (contains constant content)); [now left|now right].
Qed.

(** The loop over the constants, from any point on: the constants it
    adds to [changes_made] are constants of the list; when it adds none
    the content is the one it started with; and it prints [Replacing]
    lines only. *)
Lemma constants_loop (constants : list str) :
  forall (content : str) (changes : list str) (lines : list line),
  exists added,
    snd (returned
           (fold_left
              (fun acc constant =>
                 st <- acc ;;
                 r <- process_constant_in_content (fst st) constant ;;
                 ret (fst r, if snd r then snd st ++ [constant] else snd st))
              constants ((content, changes), lines)))
    = changes ++ added /\
    incl added constants /\
    (added = [] ->
     fst (returned
            (fold_left
               (fun acc constant =>
                  st <- acc ;;
                  r <- process_constant_in_content (fst st) constant ;;
                  ret (fst r, if snd r then snd st ++ [constant] else snd st))
               constants ((content, changes), lines)))
     = content) /\
    (Forall (fun l => is_updated l = false) lines ->
     Forall (fun l => is_updated l = false)
       (printed
          (fold_left
             (fun acc constant =>
                st <- acc ;;
                r <- process_constant_in_content (fst st) constant ;;
                ret (fst r, if snd r then snd st ++ [constant] else snd st))
             constants ((content, changes), lines)))).
Proof.
  induction constants as [|k constants IH]; intros content changes lines.
  - exists []. cbn. rewrite app_nil_r. repeat split; auto. apply incl_refl.
  - cbn [fold_left].
    assert (Hstep :
      (st <- ((content, changes), lines) ;;
       r <- process_constant_in_content (fst st) k ;;
       ret (fst r, if snd r then snd st ++ [k] else snd st))
      = ((fst (returned (process_constant_in_content content k)),
          if snd (returned (process_constant_in_content content k))
          then changes ++ [k] else changes),
         lines ++ printed (process_constant_in_content content k))).
    { unfold bind, ret, returned, printed. cbn [fst snd].
      destruct (process_constant_in_content content k) as [[c b] l].
      cbn [fst snd]. now rewrite app_nil_r. }
    rewrite Hstep. clear Hstep.
    pose proof (changed_flag content k) as Hflag.
    pose proof (engine_prints content k) as Hprints.
    destruct (returned (process_constant_in_content content k)) as [content1 changed].
    cbn [fst snd] in Hflag |- *.
    set (lines1 := printed (process_constant_in_content content k)) in *. clearbody lines1.
    destruct (IH content1 (if changed then changes ++ [k] else changes) (lines ++ lines1))
      as (added & Hadded & Hincl & Hsame & Hlines).
    assert (Hlines' : Forall (fun l => is_updated l = false) lines ->
                      Forall (fun l => is_updated l = false) (lines ++ lines1)).
    { intro H. apply Forall_app. split; [exact H|].
      destruct Hprints as [-> | ->]; repeat constructor. }
    destruct changed.
    + exists (k :: added). rewrite Hadded, <- app_assoc.
      split; [reflexivity|]. split; [|split; [discriminate|]].
      * intros x [<-|Hx]; [now left|right; now apply Hincl].
      * intro H. now apply Hlines, Hlines'.
    + exists added. split; [exact Hadded|]. split; [now apply incl_tl|]. split.
      * intro H. rewrite (Hsame H).
        destruct (str_eqb content1 content) eqn:E; [now apply str_eqb_eq in E|].
        apply str_eqb_neq in E. apply Hflag in E. discriminate E.
      * intro H. now apply Hlines, Hlines'.
Qed.

(** X4.  The constants reported by the loop of [process_file] are constants
    of the registry, and when the content comes out changed at least
    one constant is reported. *)
Theorem changes_made_are_reported (content : str) :
  incl (snd (returned (process_constants content))) CONSTANTS /\
  (fst (returned (process_constants content)) <> content ->
   snd (returned (process_constants content)) <> []).
Proof.
  unfold process_constants.
  change (@ret (str * list str) (content, [])) with ((content, @nil str), @nil line).
  destruct (constants_loop CONSTANTS content [] []) as (added & Hadded & Hincl & Hsame & _).
  rewrite Hadded. cbn [app]. split; [exact Hincl|].
  intros Hneq ->. now apply Hneq, Hsame.
Qed.

Lemma process_constants_prints (content : str) :
  Forall (fun l => is_updated l = false) (printed (process_constants content)).
Proof.
  unfold process_constants.
  change (@ret (str * list str) (content, [])) with ((content, @nil str), @nil line).
  destruct (constants_loop CONSTANTS content [] []) as (_ & _ & _ & _ & Hlines).
  apply Hlines. constructor.
Qed.

Lemma process_constants_changes (content : str) :
  fst (returned (process_constants content)) <> content ->
  snd (returned (process_constants content)) <> [].
Proof.
  unfold process_constants.
  change (@ret (str * list str) (content, [])) with ((content, @nil str), @nil line).
  destruct (constants_loop CONSTANTS content [] []) as (added & Hadded & _ & Hsame & _).
  rewrite Hadded. cbn [app]. intros Hneq ->. now apply Hneq, Hsame.
Qed.

(** *** The bare-usage rule *)

(** After a character that is neither a word character nor the start of
    the constant, what [\b] saw before does not matter. *)
Lemma sub_pattern4_before (k post : str) (b b' : bool) :
  identifier k -> head_is_word_or_dot post = false ->
  sub_from (pattern4 k) (fun _ groups => expand (replacement4 k) groups) b post 0
  = sub_from (pattern4 k) (fun _ groups => expand (replacement4 k) groups) b' post 0.
Proof.
  intros Hk Hpost. destruct post as [|x post]; [reflexivity|].
  rewrite !sub_pattern4_step by assumption.
  assert (startswith k (x :: post) = false) as ->.
  { destruct Hk as [Hne Hw]. destruct k as [|c k]; [congruence|].
    cbn [startswith]. destruct (char_eqb c x) eqn:E; [|reflexivity].
    apply char_eqb_eq in E; subst c. cbn [forallb] in Hw.
    apply andb_true_iff in Hw as [Hx _]. cbn in Hpost. unfold is_word_or_dot in Hpost.
    now rewrite Hx in Hpost. }
  now rewrite !andb_false_r.
Qed.

(** No whole-word occurrence of the constant starts in the text before
    an occurrence, when the constant does not occur in that text. *)
Lemma no_usage_before (k p1 p2 post : str) :
  identifier k -> ~ occurs k (p1 ++ p2) -> p2 <> [] ->
  match_here (pattern4 k) (passed false p1) (p2 ++ k ++ post) = None.
Proof.
  intros Hk Hno Hp2. rewrite (match_pattern4 k _ _ Hk).
  destruct (startswith k (p2 ++ k ++ post)) eqn:E;
    [|now rewrite andb_false_r].
  apply startswith_spec in E as [z E]. rewrite E, skipn_exact.
  assert (Hz : head_is_word_or_dot z = true); [|now rewrite Hz, andb_false_r].
  destruct Hk as [Hne Hw].
  apply app_eq_app in E as [l [[-> _]|[Hk E]]].
  - exfalso. apply Hno. now exists p1, l.
  - apply app_eq_app in E as [m [[Hk' ->]|[Hl _]]].
    + destruct m as [|y m].
      * exfalso. rewrite app_nil_r in Hk'. rewrite Hk' in Hk.
        apply (f_equal (@length char)) in Hk. rewrite length_app in Hk.
        destruct p2; [congruence|simpl in Hk; lia].
      * rewrite Hk', forallb_app in Hw. apply andb_true_iff in Hw as [_ Hw].
        cbn [forallb] in Hw. apply andb_true_iff in Hw as [Hy _].
        cbn. unfold is_word_or_dot. now rewrite Hy.
    + exfalso. rewrite Hl in Hk. apply (f_equal (@length char)) in Hk.
      rewrite !length_app in Hk. destruct p2; [congruence|simpl in Hk; lia].
Qed.

(** X7.  The bare-usage rule on the first occurrence of the constant,
    when no word character stands before it and neither a word
    character nor a dot behind it: [dev.] is put before it, the text
    before it is kept, and the text behind it is left to the same
    rule. *)
Theorem bare_usage_rule_qualifies (constant pre post : str) :
  identifier constant ->
  ~ occurs constant pre ->
  last_is_word pre = false ->
  head_is_word_or_dot post = false ->
  re_sub (pattern4 constant) (replacement4 constant) (pre ++ constant ++ post)
  = pre ++ text "dev." ++ constant
    ++ re_sub (pattern4 constant) (replacement4 constant) post.
Proof.
  intros Hk Hno Hpre Hpost. unfold re_sub.
  rewrite sub_from_no_match.
  - rewrite passed_false, Hpre. f_equal.
    rewrite sub_from_match with (groups := []).
    + rewrite expand_replacement4, <- app_assoc. do 2 f_equal.
      now apply sub_pattern4_before.
    + now destruct Hk.
    + rewrite (match_pattern4 constant _ _ Hk), startswith_app, skipn_exact, Hpost.
      reflexivity.
  - intros p1 p2 -> Hp2. now apply no_usage_before.
Qed.

(** X8.  The bare-usage rule leaves a text as it is when every occurrence
    of the constant in it has a word character before it, or a word
    character or a dot behind it. *)
Theorem bare_usage_rule_keeps_other_text (constant s : str) :
  identifier constant ->
  (forall pre post, s = pre ++ constant ++ post ->
                    last_is_word pre = true \/ head_is_word_or_dot post = true) ->
  re_sub (pattern4 constant) (replacement4 constant) s = s.
Proof.
  intros Hk H. unfold re_sub.
  rewrite <- (app_nil_r s) at 1. rewrite sub_from_no_match; [apply app_nil_r|].
  intros p1 p2 -> Hp2. rewrite app_nil_r, (match_pattern4 constant _ _ Hk).
  destruct (negb (passed false p1) && startswith constant p2
            && negb (head_is_word_or_dot (skipn (length constant) p2))) eqn:C;
    [exfalso|reflexivity].
  apply andb_true_iff in C as [C Hrest]. apply andb_true_iff in C as [Hb Hs].
  apply negb_true_iff in Hb, Hrest. apply startswith_spec in Hs as [rest ->].
  rewrite skipn_exact in Hrest. rewrite passed_false in Hb.
  destruct (H p1 rest eq_refl); congruence.
Qed.

(** The bare-usage rule leaves the text as it is, or leaves
    [dev.{constant}] in it. *)
Lemma sub_pattern4_marks (k : str) :
  identifier k ->
  forall s before,
    sub_from (pattern4 k) (fun _ groups => expand (replacement4 k) groups) before s 0 = s \/
    occurs (text "dev." ++ k)
      (sub_from (pattern4 k) (fun _ groups => expand (replacement4 k) groups) before s 0).
Proof.
  intros Hk. induction s as [|x s IH]; intros before; [now left|].
  rewrite sub_pattern4_step by assumption.
  destruct (negb before && startswith k (x :: s)
            && negb (head_is_word_or_dot (skipn (length k) (x :: s)))).
  - right. exists [], (sub_from (pattern4 k) (fun _ groups => expand (replacement4 k) groups)
                         (is_word x) s (pred (length k))).
    reflexivity.
  - destruct (IH (is_word x)) as [-> |(pre & post & ->)]; [now left|right].
    now exists (x :: pre), post.
Qed.

(** X9.  When the last rule of the engine, the bare-usage rule, changes the
    text it is given, a second run of the engine changes nothing. *)
Theorem qualifying_run_is_final (content constant : str) :
  identifier constant ->
  ~ occurs (text "dev." ++ constant) content ->
  occurs constant content ->
  fst (returned (process_constant_in_content content constant))
  <> const_constructor_rule
       (re_sub (pattern2 constant) (replacement2 constant)
          (re_sub (pattern1 constant) (replacement1 constant) content))
       constant ->
  returned (process_constant_in_content
              (fst (returned (process_constant_in_content content constant))) constant)
  = (fst (returned (process_constant_in_content content constant)), false).
Proof.
  intros Hk Hnew Hocc Hchanged.
  assert (E : fst (returned (process_constant_in_content content constant))
              = re_sub (pattern4 constant) (replacement4 constant)
                  (const_constructor_rule
                     (re_sub (pattern2 constant) (replacement2 constant)
                        (re_sub (pattern1 constant) (replacement1 constant) content))
                     constant)).
  { rewrite process_constant_in_content_cases.
    apply contains_false in Hnew. apply contains_spec in Hocc.
    now rewrite Hnew, Hocc. }
  rewrite E in Hchanged |- *.
  rewrite engine_skips; [reflexivity|]. left. unfold re_sub at 1. unfold re_sub at 1 in Hchanged.
  destruct (sub_pattern4_marks constant Hk
              (const_constructor_rule
                 (re_sub (pattern2 constant) (replacement2 constant)
                    (re_sub (pattern1 constant) (replacement1 constant) content))
                 constant) false) as [Hsame|Hmark]; [contradiction|exact Hmark].
Qed.

(** *** The declaration rule *)

Lemma is_space_not_word (c : char) : is_space c = true -> is_word c = false.
Proof. unfold is_word, is_space. now destruct (class_of c). Qed.

Lemma head_word_not_space (w r : str) :
  identifier w ->
  match w ++ r with [] => true | y :: _ => negb (is_space y) end = true.
Proof.
  intros [Hne Hw]. destruct w as [|c w]; [congruence|]. cbn [app forallb] in *.
  apply andb_true_iff in Hw as [Hc _]. now rewrite (is_word_not_space c Hc).
Qed.

Lemma head_blank_not_word (ws r : str) :
  ws <> [] -> blank ws ->
  match ws ++ r with [] => true | y :: _ => negb (is_word y) end = true.
Proof.
  intros Hne Hws. destruct ws as [|c ws]; [congruence|]. unfold blank in Hws.
  cbn [app forallb] in *.
  apply andb_true_iff in Hws as [Hc _]. now rewrite (is_space_not_word c Hc).
Qed.

Lemma head_blank_equals_not_word (ws r : str) :
  blank ws ->
  match ws ++ chr "=" :: r with [] => true | y :: _ => negb (is_word y) end = true.
Proof.
  intros Hws. destruct ws as [|c ws]; [reflexivity|]. unfold blank in Hws.
  cbn [app forallb] in *.
  apply andb_true_iff in Hws as [Hc _]. now rewrite (is_space_not_word c Hc).
Qed.

(** Pattern 1 on a declaration [const Type name = constant;], with
    any white space between its parts: the match is the declaration and
    the groups are the type and the name. *)
Lemma match_declaration (k ws1 type ws2 name ws3 ws4 ws5 post : str) :
  identifier k -> identifier type -> identifier name ->
  ws1 <> [] -> blank ws1 -> ws2 <> [] -> blank ws2 ->
  blank ws3 -> blank ws4 -> blank ws5 ->
  match_here (pattern1 k) false
    ((text "const" ++ ws1 ++ type ++ ws2 ++ name ++ ws3 ++ text "=" ++ ws4 ++ k ++ ws5
      ++ text ";") ++ post)
  = Some (length (text "const" ++ ws1 ++ type ++ ws2 ++ name ++ ws3 ++ text "=" ++ ws4
                  ++ k ++ ws5 ++ text ";"),
          [type; name]).
Proof.
  intros Hk Htype Hname Hne1 Hws1 Hne2 Hws2 Hws3 Hws4 Hws5.
  set (N := length (text "const" ++ ws1 ++ type ++ ws2 ++ name ++ ws3 ++ text "=" ++ ws4
                    ++ k ++ ws5 ++ text ";")).
  unfold match_here.
  assert (run (pattern1 k) false
            ((text "const" ++ ws1 ++ type ++ ws2 ++ name ++ ws3 ++ text "=" ++ ws4 ++ k
              ++ ws5 ++ text ";") ++ post) 0 []
          = Some (N, [name; type])) as ->; [|reflexivity].
  unfold pattern1, literal.
  change ([Boundary] ++ re_escape (text "const") ++
          [spaces1; word_group; spaces1; word_group; spaces0; Lit (chr "="); spaces0] ++
          re_escape k ++ [spaces0; Lit (chr ";")])
    with (Boundary :: (re_escape (text "const") ++
          spaces1 :: word_group :: spaces1 :: word_group :: spaces0 :: Lit (chr "=") ::
          spaces0 :: (re_escape k ++ [spaces0; Lit (chr ";")]))).
  replace ((text "const" ++ ws1 ++ type ++ ws2 ++ name ++ ws3 ++ text "=" ++ ws4 ++ k
            ++ ws5 ++ text ";") ++ post)
    with (text "const" ++ ws1 ++ type ++ ws2 ++ name ++ ws3 ++ chr "=" :: ws4 ++ k
          ++ ws5 ++ chr ";" :: post)
    by (repeat rewrite <- app_assoc; reflexivity).
  cbn [run]. change (xorb false (head_is_word (text "const" ++ _))) with true. cbv iota.
  rewrite run_literal, startswith_app, skipn_exact.
  destruct Htype as [Hnetype Hwtype]. destruct Hname as [Hnename Hwname].
  (* \s+ *)
  unfold spaces1 at 1. cbn [run].
  apply greedy_first;
    [exact Hws1|apply head_word_not_space; now split
    |destruct ws1; [congruence|simpl; lia]|].
  (* (\w+) *)
  unfold word_group at 1. cbn [run].
  apply greedy_first;
    [exact Hwtype|now apply head_blank_not_word
    |destruct type; [congruence|simpl; lia]|].
  (* \s+ *)
  unfold spaces1 at 1. cbn [run].
  apply greedy_first;
    [exact Hws2|apply head_word_not_space; now split
    |destruct ws2; [congruence|simpl; lia]|].
  (* (\w+) *)
  unfold word_group at 1. cbn [run].
  apply greedy_first;
    [exact Hwname|now apply head_blank_equals_not_word
    |destruct name; [congruence|simpl; lia]|].
  (* \s*= *)
  unfold spaces0 at 1. cbn [run].
  apply greedy_first; [exact Hws3|reflexivity|lia|].
  cbn [run]. rewrite char_eqb_refl.
  (* \s* and the constant *)
  unfold spaces0 at 1. cbn [run].
  apply greedy_first; [exact Hws4|now apply head_word_not_space|lia|].
  rewrite run_literal, startswith_app, skipn_exact.
  (* \s*; *)
  unfold spaces0 at 1. cbn [run].
  apply greedy_first; [exact Hws5|reflexivity|lia|].
  cbn [run]. rewrite char_eqb_refl.
  rewrite !app_nil_r, !rev_involutive. f_equal. f_equal.
  unfold N. repeat (rewrite !length_app; cbn [length text map list_ascii_of_string]). lia.
Qed.

(** Pattern 1 only matches where the word [const] starts. *)
Lemma match_pattern1_needs_const (k : str) (before : bool) (s : str) (r : nat * list str) :
  match_here (pattern1 k) before s = Some r ->
  before = false /\ startswith (text "const") s = true.
Proof.
  unfold match_here, pattern1, literal.
  change ([Boundary] ++ re_escape (text "const") ++
          [spaces1; word_group; spaces1; word_group; spaces0; Lit (chr "="); spaces0] ++
          re_escape k ++ [spaces0; Lit (chr ";")])
    with (Boundary :: (re_escape (text "const") ++
          spaces1 :: word_group :: spaces1 :: word_group :: spaces0 :: Lit (chr "=") ::
          spaces0 :: (re_escape k ++ [spaces0; Lit (chr ";")]))).
  cbn [run]. rewrite run_literal.
  destruct (startswith (text "const") s) eqn:E.
  - apply startswith_spec in E as [z ->]. intros H. split; [|reflexivity].
    change (head_is_word (text "const" ++ z)) with true in H.
    now destruct before.
  - now destruct (xorb before (head_is_word s)).
Qed.

(** Before the first [const] of a text, no [const] starts. *)
Lemma no_const_starts_before (p1 p2 rest : str) :
  ~ occurs (text "const") (p1 ++ p2) -> p2 <> [] ->
  startswith (text "const") (p2 ++ text "const" ++ rest) = false.
Proof.
  intros Hno Hne. destruct (startswith _ _) eqn:E; [exfalso|reflexivity].
  apply startswith_spec in E as [z E]. cbn in E.
  destruct p2 as [|a [|b [|c [|d [|e p2]]]]]; cbn in E; try congruence.
  injection E as -> -> -> -> -> _. apply Hno.
  now exists p1, p2.
Qed.

(** X5.  The declaration rule on the first [const] of the content, a
    declaration [const Type name = constant;] with any white space
    between its parts: [const] becomes [final], the type and the name
    are kept, the white space becomes one blank each, the constant
    gets [dev.] before it; the text before the declaration is kept, and
    the text behind it is left to the same rule. *)
Theorem declaration_rule (constant pre ws1 type ws2 name ws3 ws4 ws5 post : str) :
  identifier constant -> identifier type -> identifier name ->
  ws1 <> [] -> blank ws1 -> ws2 <> [] -> blank ws2 ->
  blank ws3 -> blank ws4 -> blank ws5 ->
  ~ occurs (text "const") pre ->
  last_is_word pre = false ->
  re_sub (pattern1 constant) (replacement1 constant)
    (pre ++ (text "const" ++ ws1 ++ type ++ ws2 ++ name ++ ws3 ++ text "=" ++ ws4
             ++ constant ++ ws5 ++ text ";") ++ post)
  = pre ++ (text "final " ++ type ++ text " " ++ name ++ text " = dev." ++ constant
            ++ text ";")
    ++ re_sub (pattern1 constant) (replacement1 constant) post.
Proof.
  intros Hk Htype Hname Hne1 Hws1 Hne2 Hws2 Hws3 Hws4 Hws5 Hfirst Hpre.
  unfold re_sub. rewrite <- passed_false in Hpre.
  rewrite sub_from_no_match.
  - rewrite Hpre. f_equal.
    rewrite sub_from_match with (groups := [type; name]).
    + f_equal. f_equal.
      replace (text "const" ++ ws1 ++ type ++ ws2 ++ name ++ ws3 ++ text "=" ++ ws4
               ++ constant ++ ws5 ++ text ";")
        with ((text "const" ++ ws1 ++ type ++ ws2 ++ name ++ ws3 ++ text "=" ++ ws4
               ++ constant ++ ws5) ++ [chr ";"])
        by (repeat rewrite <- app_assoc; reflexivity).
      now rewrite passed_last.
    + discriminate.
    + now apply match_declaration.
  - intros p1 p2 -> Hp2.
    destruct (match_here (pattern1 constant) (passed false p1)
                (p2 ++ (text "const" ++ ws1 ++ type ++ ws2 ++ name ++ ws3 ++ text "=" ++ ws4
                        ++ constant ++ ws5 ++ text ";") ++ post))
      as [r|] eqn:E; [exfalso|reflexivity].
    apply match_pattern1_needs_const in E as [_ E].
    rewrite <- app_assoc in E.
    rewrite (no_const_starts_before p1 p2 _ Hfirst Hp2) in E. discriminate E.
Qed.

(** *** The rule for static declarations

    Pattern 2 is pattern 1 with [static] and white space before it, and
    pattern 1 needs no [static]: the declaration rule has taken every
    static declaration before the rule for them runs. *)

(** What a quantified class has taken when the pattern matched *)
Lemma greedy_inv (cls : char -> bool)
  (continue : bool -> str -> nat -> str -> option (nat * list str)) :
  forall s least before n taken r,
    greedy cls continue least before s n taken = Some r ->
    exists u rest,
      s = u ++ rest /\ forallb cls u = true /\ least <= length u /\
      continue (passed before u) rest (n + length u) (rev u ++ taken) = Some r.
Proof.
  induction s as [|x s IH]; intros least before n taken r H; cbn [greedy] in H.
  - destruct least; [|discriminate]. exists [], [].
    cbn. rewrite Nat.add_0_r. auto.
  - assert (Hstop : match least with
                    | O => continue before (x :: s) n taken
                    | S _ => None
                    end = Some r ->
                    exists u rest,
                      x :: s = u ++ rest /\ forallb cls u = true /\ least <= length u /\
                      continue (passed before u) rest (n + length u) (rev u ++ taken) = Some r).
    { intro H0. destruct least; [|discriminate]. exists [], (x :: s).
      cbn. rewrite Nat.add_0_r. auto. }
    destruct (cls x) eqn:Hx; [|now apply Hstop].
    destruct (greedy cls continue (pred least) (is_word x) s (S n) (x :: taken)) eqn:E;
      [|now apply Hstop].
    injection H as <-. apply IH in E as (u & rest & -> & Hu & Hl & Hc).
    exists (x :: u), rest. cbn [app forallb length rev]. rewrite Hx, Hu.
    repeat split; [lia|].
    rewrite <- app_assoc. replace (n + S (length u)) with (S n + length u) by lia.
    exact Hc.
Qed.

(** What the part of patterns 1 and 2 from [const] on has matched *)
Lemma run_declaration_inv (k : str) (before : bool) (s : str) (n : nat) (groups : list str)
  (r : nat * list str) :
  run (re_escape (text "const") ++
       spaces1 :: word_group :: spaces1 :: word_group :: spaces0 :: Lit (chr "=") ::
       spaces0 :: (re_escape k ++ [spaces0; Lit (chr ";")])) before s n groups = Some r ->
  exists type name d post,
    s = d ++ post /\ declaration k type name d /\ r = (n + length d, name :: type :: groups).
Proof.
  intro H. rewrite run_literal in H.
  destruct (startswith (text "const") s) eqn:E; [|discriminate].
  apply startswith_spec in E as [s1 ->]. rewrite skipn_exact in H.
  unfold spaces1 at 1 in H. cbn [run] in H.
  apply greedy_inv in H as (ws1 & s2 & -> & Hws1 & Hl1 & H).
  unfold word_group at 1 in H. cbn [run] in H.
  apply greedy_inv in H as (type & s3 & -> & Htype & Hl2 & H).
  unfold spaces1 at 1 in H. cbn [run] in H.
  apply greedy_inv in H as (ws2 & s4 & -> & Hws2 & Hl3 & H).
  unfold word_group at 1 in H. cbn [run] in H.
  apply greedy_inv in H as (name & s5 & -> & Hname & Hl4 & H).
  unfold spaces0 at 1 in H. cbn [run] in H.
  apply greedy_inv in H as (ws3 & s6 & -> & Hws3 & _ & H).
  cbn [run] in H. destruct s6 as [|x s6]; [discriminate|].
  destruct (char_eqb x (chr "=")) eqn:Ex; [|discriminate].
  apply char_eqb_eq in Ex. subst x.
  unfold spaces0 at 1 in H. cbn [run] in H.
  apply greedy_inv in H as (ws4 & s7 & -> & Hws4 & _ & H).
  rewrite run_literal in H.
  destruct (startswith k s7) eqn:E; [|discriminate].
  apply startswith_spec in E as [s8 ->]. rewrite skipn_exact in H.
  unfold spaces0 at 1 in H. cbn [run] in H.
  apply greedy_inv in H as (ws5 & s9 & -> & Hws5 & _ & H).
  cbn [run] in H. destruct s9 as [|y post]; [discriminate|].
  destruct (char_eqb y (chr ";")) eqn:Ey; [|discriminate].
  apply char_eqb_eq in Ey. subst y. injection H as <-.
  rewrite !app_nil_r, !rev_involutive.
  exists type, name,
    (text "const" ++ ws1 ++ type ++ ws2 ++ name ++ ws3 ++ text "=" ++ ws4 ++ k ++ ws5
     ++ text ";"), post.
  split; [repeat rewrite <- app_assoc; reflexivity|]. split.
  - exists ws1, ws2, ws3, ws4, ws5. split; [reflexivity|].
    repeat split; try assumption; intros ->; simpl in *; lia.
  - f_equal.
    repeat (rewrite !length_app; cbn [length text map list_ascii_of_string]). lia.
Qed.

(** Pattern 1 matches declarations only. *)
Lemma match_pattern1_inv (k : str) (before : bool) (s : str) (n : nat) (groups : list str) :
  match_here (pattern1 k) before s = Some (n, groups) ->
  before = false /\
  exists type name d post,
    s = d ++ post /\ declaration k type name d /\ n = length d /\ groups = [type; name].
Proof.
  intro H. destruct (match_pattern1_needs_const _ _ _ _ H) as [-> _].
  split; [reflexivity|]. revert H.
  unfold match_here, pattern1, literal.
  change ([Boundary] ++ re_escape (text "const") ++
          [spaces1; word_group; spaces1; word_group; spaces0; Lit (chr "="); spaces0] ++
          re_escape k ++ [spaces0; Lit (chr ";")])
    with (Boundary :: (re_escape (text "const") ++
          spaces1 :: word_group :: spaces1 :: word_group :: spaces0 :: Lit (chr "=") ::
          spaces0 :: (re_escape k ++ [spaces0; Lit (chr ";")]))).
  cbn [run]. destruct (xorb false (head_is_word s)); [|discriminate].
  destruct (run _ false s 0 []) as [[n' g]|] eqn:E; [|discriminate].
  intro H. injection H as <- <-.
  apply run_declaration_inv in E as (type & name & d & post & -> & Hd & E).
  injection E as -> ->. now exists type, name, d, post.
Qed.

(** Pattern 2 matches [static], white space and a declaration. *)
Lemma match_pattern2_inv (k : str) (before : bool) (s : str) (r : nat * list str) :
  match_here (pattern2 k) before s = Some r ->
  exists ws0 type name d post,
    s = text "static" ++ ws0 ++ d ++ post /\ ws0 <> [] /\ blank ws0 /\
    declaration k type name d.
Proof.
  unfold match_here, pattern2, literal.
  change ([Boundary] ++ re_escape (text "static") ++ [spaces1] ++ re_escape (text "const") ++
          [spaces1; word_group; spaces1; word_group; spaces0; Lit (chr "="); spaces0] ++
          re_escape k ++ [spaces0; Lit (chr ";")])
    with (Boundary :: (re_escape (text "static") ++ spaces1 :: (re_escape (text "const") ++
          spaces1 :: word_group :: spaces1 :: word_group :: spaces0 :: Lit (chr "=") ::
          spaces0 :: (re_escape k ++ [spaces0; Lit (chr ";")])))).
  cbn [run]. destruct (xorb before (head_is_word s)); [|discriminate].
  rewrite run_literal.
  destruct (startswith (text "static") s) eqn:E; [|discriminate].
  apply startswith_spec in E as [s1 ->]. rewrite skipn_exact.
  unfold spaces1 at 1. cbn [run].
  destruct (greedy _ _ _ _ _ _ _) as [r'|] eqn:G; [|discriminate]. intros _.
  apply greedy_inv in G as (ws0 & s2 & -> & Hws0 & Hl & G).
  apply run_declaration_inv in G as (type & name & d & post & -> & Hd & _).
  exists ws0, type, name, d, post. repeat split; try assumption.
  intros ->. simpl in Hl. lia.
Qed.

(** Pattern 1 matches every declaration that starts a word. *)
Lemma declaration_matches (k type name d post : str) :
  identifier k -> declaration k type name d ->
  match_here (pattern1 k) false (d ++ post) = Some (length d, [type; name]).
Proof.
  intros Hk (ws1 & ws2 & ws3 & ws4 & ws5 & -> & Htype & Hname & H1 & H2 & H3 & H4 & H5 & H6 & H7).
  now apply match_declaration.
Qed.

(** The search loop either finds no match, or a first one. *)
Lemma sub_from_cases (c : char) (p : pattern) (f : str -> list str -> str) :
  In (Lit c) p ->
  forall s before,
    ((forall p1 p2, s = p1 ++ p2 -> p2 <> [] -> match_here p (passed before p1) p2 = None) /\
     sub_from p f before s 0 = s) \/
    (exists u m rest groups,
        s = u ++ m ++ rest /\ m <> [] /\
        (forall p1 p2, u = p1 ++ p2 -> p2 <> [] ->
                       match_here p (passed before p1) (p2 ++ m ++ rest) = None) /\
        match_here p (passed before u) (m ++ rest) = Some (length m, groups) /\
        sub_from p f before s 0
        = u ++ f m groups ++ sub_from p f (passed before (u ++ m)) rest 0).
Proof.
  intros Hin. induction s as [|x s IH]; intros before.
  - left. split; [|reflexivity]. intros p1 p2 E Hne.
    symmetry in E. apply app_eq_nil in E as [_ E]. congruence.
  - destruct (match_here p before (x :: s)) as [[[|n] g]|] eqn:E.
    + exfalso. now apply (match_here_not_empty c p before (x :: s) g Hin).
    + right. pose proof (match_here_length _ _ _ _ _ E) as Hlen.
      exists [], (firstn (S n) (x :: s)), (skipn (S n) (x :: s)), g.
      assert (Hm : length (firstn (S n) (x :: s)) = S n) by (apply firstn_length_le; exact Hlen).
      cbn [app passed fold_left]. rewrite firstn_skipn, Hm.
      split; [reflexivity|]. split; [intro H0; rewrite H0 in Hm; discriminate Hm|].
      split; [intros p1 p2 E0; symmetry in E0; apply app_eq_nil in E0 as [_ E0]; congruence|].
      split; [exact E|].
      rewrite <- (firstn_skipn (S n) (x :: s)) at 1.
      apply sub_from_match.
      * intro H0. rewrite H0 in Hm. discriminate Hm.
      * now rewrite firstn_skipn, Hm.
    + destruct (IH (is_word x))
        as [[Hno Heq]|(u & m & rest & g & -> & Hm & Hno & Hmatch & Heq)].
      * left. split.
        -- intros [|y p1] p2 E0 Hne; cbn [app] in E0.
           ++ now subst p2.
           ++ injection E0 as <- ->. now apply Hno.
        -- cbn [sub_from]. now rewrite E, Heq.
      * right. exists (x :: u), m, rest, g. cbn [app].
        split; [reflexivity|]. split; [exact Hm|]. split; [|split].
        -- intros [|y p1] p2 E0 Hne; cbn [app] in E0.
           ++ subst p2. exact E.
           ++ injection E0 as <- ->. now apply Hno.
        -- exact Hmatch.
        -- cbn [sub_from]. now rewrite E, Heq.
Qed.

(** The first [c] of a text *)
Lemma first_of (c : char) (a a' b b' : str) :
  forallb (is_not c) a = true -> forallb (is_not c) a' = true ->
  a ++ c :: b = a' ++ c :: b' -> a = a' /\ b = b'.
Proof.
  revert a'. induction a as [|x a IH]; intros [|y a'] Ha Ha' E; cbn [app forallb] in *.
  - injection E as ->. now split.
  - injection E as <- _. unfold is_not in Ha'. now rewrite char_eqb_refl in Ha'.
  - injection E as -> _. unfold is_not in Ha. now rewrite char_eqb_refl in Ha.
  - injection E as <- E. apply andb_true_iff in Ha as [_ Ha], Ha' as [_ Ha'].
    destruct (IH a' Ha Ha' E) as [-> ->]. now split.
Qed.

Lemma forallb_impl (P Q : char -> bool) (l : str) :
  (forall c, P c = true -> Q c = true) -> forallb P l = true -> forallb Q l = true.
Proof.
  intros HPQ H. apply forallb_forall. intros c Hc.
  rewrite forallb_forall in H. auto.
Qed.

(** No semicolon in an identifier nor in white space *)
Lemma word_no_semicolon (w : str) :
  forallb is_word w = true -> forallb (is_not (chr ";")) w = true.
Proof.
  apply forallb_impl. intros c Hc. unfold is_not.
  destruct (char_eqb c (chr ";")) eqn:E; [|reflexivity].
  apply char_eqb_eq in E. subst c. discriminate Hc.
Qed.

Lemma blank_no_semicolon (ws : str) : blank ws -> forallb (is_not (chr ";")) ws = true.
Proof.
  apply forallb_impl. intros c Hc. unfold is_not.
  destruct (char_eqb c (chr ";")) eqn:E; [|reflexivity].
  apply char_eqb_eq in E. subst c. discriminate Hc.
Qed.

(** A declaration: its one semicolon is its last character, it starts
    with [c], and what stands before the constant is [=] or white
    space. *)
Lemma declaration_parts (k type name d : str) :
  identifier k -> declaration k type name d ->
  exists X a ws5,
    d = (X ++ [a] ++ k ++ ws5) ++ [chr ";"] /\
    forallb (is_not (chr ";")) (X ++ [a] ++ k ++ ws5) = true /\
    head (X ++ [a] ++ k ++ ws5) = Some (chr "c") /\
    blank ws5 /\ (a = chr "=" \/ is_space a = true).
Proof.
  intros [_ Hk] (ws1 & ws2 & ws3 & ws4 & ws5 & -> & [_ Htype] & [_ Hname]
                 & _ & H1 & _ & H2 & H3 & H4 & H5).
  assert (Hfree : forallb (is_not (chr ";"))
                    (text "const" ++ ws1 ++ type ++ ws2 ++ name ++ ws3 ++ text "=" ++ ws4
                     ++ k ++ ws5) = true).
  { rewrite !forallb_app.
    rewrite (blank_no_semicolon ws1 H1), (blank_no_semicolon ws2 H2),
      (blank_no_semicolon ws3 H3), (blank_no_semicolon ws4 H4), (blank_no_semicolon ws5 H5),
      (word_no_semicolon type Htype), (word_no_semicolon name Hname),
      (word_no_semicolon k Hk).
    reflexivity. }
  destruct (exists_last (l := text "=" ++ ws4) ltac:(discriminate)) as (Y & a & E).
  assert (Ha : a = chr "=" \/ is_space a = true).
  { destruct ws4 as [|w ws4 _] using rev_ind.
    - left. change (text "=" ++ []) with ([] ++ [chr "="]) in E.
      now apply app_inj_tail in E as [_ <-].
    - right. rewrite app_assoc in E. apply app_inj_tail in E as [_ <-].
      unfold blank in H4. rewrite forallb_app in H4. cbn in H4.
      apply andb_true_iff in H4 as [_ H4]. now destruct (is_space w). }
  exists (text "const" ++ ws1 ++ type ++ ws2 ++ name ++ ws3 ++ Y), a, ws5.
  assert (Hd : text "const" ++ ws1 ++ type ++ ws2 ++ name ++ ws3 ++ text "=" ++ ws4 ++ k ++ ws5
               = (text "const" ++ ws1 ++ type ++ ws2 ++ name ++ ws3 ++ Y) ++ [a] ++ k ++ ws5).
  { repeat rewrite <- app_assoc. do 6 f_equal.
    rewrite (app_assoc (text "=")), E. now rewrite <- app_assoc. }
  rewrite <- Hd. split; [repeat rewrite <- app_assoc; reflexivity|].
  split; [exact Hfree|]. split; [reflexivity|]. split; [exact H5|exact Ha].
Qed.

(** The text that the declaration rule writes: its one semicolon is its
    last character, it starts with [f], and a dot stands before the
    constant. *)
Lemma replacement1_parts (k type name : str) :
  identifier k -> identifier type -> identifier name ->
  exists Y,
    expand (replacement1 k) [type; name] = (Y ++ [chr "."] ++ k) ++ [chr ";"] /\
    forallb (is_not (chr ";")) (Y ++ [chr "."] ++ k) = true /\
    head (Y ++ [chr "."] ++ k) = Some (chr "f").
Proof.
  intros [_ Hk] [_ Htype] [_ Hname].
  exists (text "final " ++ type ++ text " " ++ name ++ text " = dev").
  split; [|split].
  - cbn [expand replacement1 flat_map nth pred]. rewrite app_nil_r.
    repeat rewrite <- app_assoc. reflexivity.
  - rewrite !forallb_app.
    rewrite (word_no_semicolon type Htype), (word_no_semicolon name Hname),
      (word_no_semicolon k Hk).
    reflexivity.
  - reflexivity.
Qed.

(** A declaration and a text written by the rule do not end at the same
    place: before the constant stands [=] or white space in the one, a
    dot in the other. *)
Lemma ends_differ (k ws5 A B : str) (a : char) :
  identifier k -> blank ws5 -> a = chr "=" \/ is_space a = true ->
  A ++ [a] ++ k ++ ws5 = B ++ [chr "."] ++ k -> False.
Proof.
  intros [Hne Hk] Hws5 Ha E.
  destruct ws5 as [|w ws5 _] using rev_ind.
  - rewrite app_nil_r in E. rewrite !app_assoc in E.
    apply app_inv_tail in E. apply app_inj_tail in E as [_ ->].
    destruct Ha as [Ha|Ha]; discriminate Ha.
  - destruct (exists_last Hne) as (k' & z & Ek).
    unfold blank in Hws5. rewrite forallb_app in Hws5. cbn in Hws5.
    apply andb_true_iff in Hws5 as [_ Hw].
    assert (Hz : is_word z = true).
    { rewrite Ek, forallb_app in Hk. cbn in Hk.
      apply andb_true_iff in Hk as [_ Hz]. now destruct (is_word z). }
    rewrite Ek in E at 2. rewrite !app_assoc in E.
    apply app_inj_tail in E as [_ ->].
    rewrite (is_word_not_space z Hz) in Hw. discriminate Hw.
Qed.

(** A declaration in a text in which the rule has written lies before
    what the rule has written, or behind it. *)
Lemma declaration_beside_replacement (k type name type' name' d u t3 q t2 : str) :
  identifier k -> identifier type -> identifier name -> declaration k type' name' d ->
  u ++ expand (replacement1 k) [type; name] ++ t3 = q ++ d ++ t2 ->
  (exists l, u = q ++ d ++ l) \/
  (exists l, q = u ++ expand (replacement1 k) [type; name] ++ l /\ t3 = l ++ d ++ t2).
Proof.
  intros Hk Htype Hname Hd E.
  destruct (declaration_parts k type' name' d Hk Hd)
    as (X & a & ws5 & -> & Hfree & Hhead & Hws5 & Ha).
  destruct (replacement1_parts k type name Hk Htype Hname) as (Y & EY & Hfree' & Hhead').
  rewrite EY in *. clear EY.
  rewrite <- !(app_assoc _ [chr ";"]) in E. cbn [app] in *.
  apply app_eq_app in E as [l [[-> E]|[-> E]]];
    apply app_eq_app in E as [l' [[E' E]|[-> E]]].
  - (* what the rule has written ends inside the declaration *)
    exfalso. rewrite E', forallb_app in Hfree. apply andb_true_iff in Hfree as [_ Hl'].
    destruct (first_of _ _ _ _ _ Hfree' Hl' E) as [<- _].
    apply (ends_differ k ws5 X (l ++ Y) a Hk Hws5 Ha).
    cbn [app]. rewrite E'. now rewrite <- !app_assoc.
  - (* the declaration ends before what the rule has written *)
    destruct l' as [|x l']; cbn [app] in E.
    + destruct (Y ++ chr "." :: k) as [|y r0]; [discriminate Hhead'|].
      cbn in Hhead'. injection Hhead' as ->. cbn [app] in E. injection E as E _.
      vm_compute in E. discriminate E.
    + injection E as <- ->. left. exists l'. now rewrite <- !app_assoc.
  - (* the declaration ends inside what the rule has written *)
    exfalso. rewrite E', forallb_app in Hfree'. apply andb_true_iff in Hfree' as [_ Hl'].
    destruct (first_of _ _ _ _ _ Hfree Hl' E) as [<- _].
    apply (ends_differ k ws5 (l ++ X) Y a Hk Hws5 Ha).
    cbn [app]. rewrite E'. now rewrite <- !app_assoc.
  - (* the declaration starts behind what the rule has written *)
    destruct l' as [|x l']; cbn [app] in E.
    + destruct (X ++ a :: k ++ ws5) as [|y d0]; [discriminate Hhead|].
      cbn in Hhead. injection Hhead as ->. cbn [app] in E. injection E as E _.
      vm_compute in E. discriminate E.
    + injection E as <- ->. right. exists l'. now rewrite <- !app_assoc.
Qed.

(** A declaration starts with a word character and ends with a
    semicolon. *)
Lemma declaration_ends (k type name d : str) (before : bool) :
  declaration k type name d -> d <> [] /\ passed before d = false.
Proof.
  intros (ws1 & ws2 & ws3 & ws4 & ws5 & -> & _). split; [discriminate|].
  replace (text "const" ++ ws1 ++ type ++ ws2 ++ name ++ ws3 ++ text "=" ++ ws4 ++ k ++ ws5
           ++ text ";")
    with ((text "const" ++ ws1 ++ type ++ ws2 ++ name ++ ws3 ++ text "=" ++ ws4 ++ k ++ ws5)
          ++ [chr ";"])
    by (repeat rewrite <- app_assoc; reflexivity).
  now rewrite passed_last.
Qed.

(** The declaration rule leaves no declaration that starts a word. *)
Lemma no_declaration_left (k : str) :
  identifier k ->
  forall s before q type name d t2,
    sub_from (pattern1 k) (fun _ groups => expand (replacement1 k) groups) before s 0
    = q ++ d ++ t2 ->
    declaration k type name d -> passed before q = false -> False.
Proof.
  intros Hk s. remember (length s) as n eqn:Hn. revert s Hn.
  induction n as [n IH] using lt_wf_ind.
  intros s Hn before q type name d t2 HT Hd Hq.
  assert (Hin : In (Lit (chr ";")) (pattern1 k)).
  { unfold pattern1. rewrite !in_app_iff. do 4 right. right. now left. }
  destruct (sub_from_cases (chr ";") (pattern1 k)
              (fun _ groups => expand (replacement1 k) groups) Hin s before)
    as [[Hno Heq]|(u & m & rest & groups & Es & Hm & Hno & Hmatch & Heq)].
  - (* the rule has found nothing *)
    rewrite Heq in HT. destruct (declaration_ends k type name d before Hd) as [Hne _].
    specialize (Hno q (d ++ t2) HT).
    rewrite Hq, (declaration_matches k type name d t2 Hk Hd) in Hno.
    assert (Hne' : d ++ t2 <> []) by (destruct d; [congruence|discriminate]).
    specialize (Hno Hne'). discriminate Hno.
  - (* the rule has found a first declaration *)
    apply match_pattern1_inv in Hmatch as Hinv.
    destruct Hinv as (Hu & ty & na & d' & post & Em & Hd' & Hlen & ->).
    assert (Emd : m = d').
    { rewrite <- (firstn_exact _ m rest), Em, Hlen. apply firstn_exact. }
    subst d'. clear Em Hlen.
    assert (Hty : identifier ty /\ identifier na).
    { destruct Hd' as (ws1 & ws2 & ws3 & ws4 & ws5 & _ & Hty & Hna & _). now split. }
    destruct Hty as [Hty Hna].
    rewrite Heq in HT.
    destruct (declaration_beside_replacement k ty na type name d u _ q t2 Hk Hty Hna Hd HT)
      as [[l El]|[l [El Et]]].
    + (* a declaration before the first one found *)
      destruct (declaration_ends k type name d before Hd) as [Hne _].
      assert (Hne' : d ++ l <> []) by (destruct d; [congruence|discriminate]).
      specialize (Hno q (d ++ l) El Hne').
      rewrite Hq, <- app_assoc, (declaration_matches k type name d _ Hk Hd) in Hno.
      discriminate Hno.
    + (* a declaration behind the first one found *)
      apply (IH (length rest)) with (s := rest) (before := passed before (u ++ m))
                                    (q := l) (type := type) (name := name) (d := d) (t2 := t2).
      * subst n s. rewrite !length_app. destruct m; [congruence|simpl; lia].
      * reflexivity.
      * exact Et.
      * exact Hd.
      * destruct l as [|x l].
        -- rewrite passed_app. cbn [passed fold_left].
           now destruct (declaration_ends k ty na m (passed before u) Hd') as [_ ->].
        -- rewrite El, !app_assoc, passed_app in Hq.
           rewrite <- Hq. now apply passed_nonempty.
Qed.

(** X15.  The declaration rule leaves nothing to itself: a second
    application to the text it has written changes nothing. *)
Theorem declaration_rule_leaves_none (constant content : str) :
  identifier constant ->
  re_sub (pattern1 constant) (replacement1 constant)
    (re_sub (pattern1 constant) (replacement1 constant) content)
  = re_sub (pattern1 constant) (replacement1 constant) content.
Proof.
  intros Hk. unfold re_sub at 1.
  rewrite <- (app_nil_r (re_sub _ _ content)) at 1.
  rewrite sub_from_no_match; [apply app_nil_r|].
  intros p1 p2 E Hp2. rewrite app_nil_r.
  destruct (match_here (pattern1 constant) (passed false p1) p2) as [[n groups]|] eqn:M;
    [exfalso|reflexivity].
  apply match_pattern1_inv in M as (Hb & type & name & d & post & -> & Hd & _).
  unfold re_sub in E.
  exact (no_declaration_left constant Hk content false p1 type name d post E Hd Hb).
Qed.

(** X16.  The rule for static declarations never applies: pattern 2
    matches nowhere in the text that the declaration rule has written,
    for a static declaration is a declaration behind [static], and the
    declaration rule, which runs first, has left none. *)
Theorem static_rule_never_applies (constant content : str) :
  identifier constant ->
  re_sub (pattern2 constant) (replacement2 constant)
    (re_sub (pattern1 constant) (replacement1 constant) content)
  = re_sub (pattern1 constant) (replacement1 constant) content.
Proof.
  intros Hk. unfold re_sub at 1.
  rewrite <- (app_nil_r (re_sub _ _ content)) at 1.
  rewrite sub_from_no_match; [apply app_nil_r|].
  intros p1 p2 E Hp2. rewrite app_nil_r.
  destruct (match_here (pattern2 constant) (passed false p1) p2) as [r|] eqn:M;
    [exfalso|reflexivity].
  apply match_pattern2_inv in M as (ws0 & type & name & d & post & -> & Hne & Hws0 & Hd).
  unfold re_sub in E.
  apply (no_declaration_left constant Hk content false (p1 ++ text "static" ++ ws0)
           type name d post).
  - now rewrite E, <- !app_assoc.
  - exact Hd.
  - rewrite !app_assoc, passed_app.
    destruct ws0 as [|w ws0 _] using rev_ind; [congruence|].
    rewrite passed_last. unfold blank in Hws0. rewrite forallb_app in Hws0. cbn in Hws0.
    apply andb_true_iff in Hws0 as [_ Hw]. apply is_space_not_word.
    now destruct (is_space w).
Qed.

(** X6.  The loop over [reversed(matches)] of pattern 3 builds the text that
    one pass from left to right over the same matches builds: replacing
    the last match first keeps the offsets of the earlier ones right. *)
Theorem reversed_loop_is_one_pass (content constant : str) :
  const_constructor_rule content constant
  = sub_from (const_constructor_pattern constant) const_taken_out false content 0.
Proof. apply const_constructor_rule_forward. Qed.

(** ** Files *)

Section FileProperties.

Variable filesystem : Type.
Variable tree : filesystem -> list entry.
Variable read_file : filesystem -> str -> result str.
Variable write_file : filesystem -> str -> str -> filesystem * result unit.

Lemma writes_app (t1 t2 : list event) : writes (t1 ++ t2) = writes t1 ++ writes t2.
Proof. apply flat_map_app. Qed.

Lemma writes_prints (l : list line) : writes (map EvPrint l) = [].
Proof. induction l as [|x l IH]; [reflexivity|exact IH]. Qed.

Lemma prints_app (t1 t2 : list event) : prints (t1 ++ t2) = prints t1 ++ prints t2.
Proof. apply flat_map_app. Qed.

(** The four ways through [process_file] *)
Lemma process_file_cases (filepath : str) (fs : filesystem) :
  process_file read_file write_file filepath fs =
  match read_file fs filepath with
  | Raised e =>
      (false, fs, [EvPrint (Processing filepath); EvRead filepath; EvPrint (ErrorReading e)])
  | Ok content =>
      let st := process_constants content in
      let final := fst (returned st) in
      let start := [EvPrint (Processing filepath); EvRead filepath] ++ map EvPrint (printed st) in
      if negb (str_eqb final content) then
        match snd (write_file fs filepath final) with
        | Ok _ =>
            (true, fst (write_file fs filepath final),
             start ++ [EvWrite filepath final; EvPrint (Updated (snd (returned st)))])
        | Raised e =>
            (false, fst (write_file fs filepath final),
             start ++ [EvWrite filepath final; EvPrint (ErrorWriting e)])
        end
      else (false, fs, start ++ [EvPrint NoChangesNeeded])
  end.
Proof.
  unfold process_file, io_bind, io_print, io_read, io_out, io_write, io_ret.
  destruct (read_file fs filepath) as [content|e]; [|reflexivity].
  set (st := process_constants content). clearbody st.
  destruct st as [[final changes] lines]. cbv zeta. cbn [returned printed fst snd].
  destruct (negb (str_eqb final content)).
  - destruct (write_file fs filepath final) as [fs' [[]|e]]; cbn [fst snd app];
      now rewrite ?app_nil_r, <- ?app_assoc.
  - cbn [app]. now rewrite ?app_nil_r.
Qed.


(** The loop over the files, file by file *)
Lemma process_files_fold (dart_files : list str) :
  forall (acc : IO filesystem nat) (fs : filesystem),
    fold_left
      (fun acc filepath =>
         io_bind acc (fun updated_files =>
         io_bind (process_file read_file write_file filepath) (fun b =>
         io_ret (if b : bool then updated_files + 1 else updated_files))))
      dart_files acc fs
    = (value (acc fs)
       + value (process_files read_file write_file dart_files (left_fs (acc fs))),
       left_fs (process_files read_file write_file dart_files (left_fs (acc fs))),
       trace (acc fs)
       ++ trace (process_files read_file write_file dart_files (left_fs (acc fs)))).
Proof.
  unfold process_files.
  induction dart_files as [|filepath rest IH]; intros acc fs.
  - cbn [fold_left]. unfold io_ret, value, left_fs, trace.
    destruct (acc fs) as [[n fs1] t1]. cbn [fst snd].
    now rewrite Nat.add_0_r, app_nil_r.
  - cbn [fold_left]. rewrite IH. symmetry. rewrite IH. symmetry.
    unfold io_bind, io_ret, value, left_fs, trace.
    destruct (acc fs) as [[n fs1] t1]. cbn [fst snd].
    destruct (process_file read_file write_file filepath fs1) as [[b fs2] t2]. cbn [fst snd].
    match goal with
    | |- context [fold_left ?f rest ?a fs2] => destruct (fold_left f rest a fs2) as [[m fs3] t3]
    end.
    cbn [fst snd]. rewrite !app_nil_r, <- app_assoc. cbn [app].
    do 2 f_equal. destruct b; lia.
Qed.

Lemma process_files_cons (filepath : str) (rest : list str) (fs : filesystem) :
  process_files read_file write_file (filepath :: rest) fs =
  ((if value (process_file read_file write_file filepath fs) then 1 else 0)
   + value (process_files read_file write_file rest
              (left_fs (process_file read_file write_file filepath fs))),
   left_fs (process_files read_file write_file rest
              (left_fs (process_file read_file write_file filepath fs))),
   trace (process_file read_file write_file filepath fs)
   ++ trace (process_files read_file write_file rest
               (left_fs (process_file read_file write_file filepath fs)))).
Proof.
  unfold process_files at 1. cbn [fold_left]. rewrite process_files_fold.
  unfold io_bind, io_ret, value, left_fs, trace.
  destruct (process_file read_file write_file filepath fs) as [[b fs1] t1]. cbn [fst snd].
  destruct (process_files read_file write_file rest fs1) as [[m fs2] t2]. cbn [fst snd].
  rewrite app_nil_r. now destruct b.
Qed.


(** C10.  When reading the file raises, or writing the
    changed content raises, [process_file] prints the error and returns
    [False]: the file adds nothing to the count of updated files, and
    the loop goes on with the remaining files. *)
Theorem failed_file_counts_as_unchanged (fs : filesystem) (filepath : str) (rest : list str) :
  (exists e, read_file fs filepath = Raised e) \/
  (exists content e,
      read_file fs filepath = Ok content /\
      fst (returned (process_constants content)) <> content /\
      snd (write_file fs filepath (fst (returned (process_constants content)))) = Raised e) ->
  value (process_file read_file write_file filepath fs) = false /\
  (exists e, In (EvPrint (ErrorReading e)) (trace (process_file read_file write_file filepath fs)) \/
             In (EvPrint (ErrorWriting e)) (trace (process_file read_file write_file filepath fs))) /\
  value (process_files read_file write_file (filepath :: rest) fs)
  = value (process_files read_file write_file rest
             (left_fs (process_file read_file write_file filepath fs))).
Proof.
  intros H.
  assert (Hfalse : value (process_file read_file write_file filepath fs) = false /\
                   exists e,
                     In (EvPrint (ErrorReading e))
                        (trace (process_file read_file write_file filepath fs)) \/
                     In (EvPrint (ErrorWriting e))
                        (trace (process_file read_file write_file filepath fs))).
  { rewrite process_file_cases.
    destruct H as [[e Hr]|(content & e & Hr & Hneq & Hw)]; rewrite Hr.
    - split; [reflexivity|]. exists e. left. right. right. left. reflexivity.
    - cbv zeta. apply str_eqb_neq in Hneq. rewrite Hneq, Hw. cbn [negb].
      split; [reflexivity|]. exists e. right. unfold trace. cbn [snd].
      apply in_or_app. right. right. left. reflexivity. }
  destruct Hfalse as [Hfalse Hlog]. split; [exact Hfalse|]. split; [exact Hlog|].
  rewrite process_files_cons. unfold value at 1. cbn [fst]. now rewrite Hfalse.
Qed.

(** The two ways through [main] *)
Lemma main_cases (fs : filesystem) :
  main tree read_file write_file fs =
  match find_dart_files (tree fs) with
  | [] => (tt, fs, [EvPrint Starting; EvPrint Finding; EvPrint (Found 0); EvPrint NoDartFiles])
  | filepath :: rest =>
      let r := process_files read_file write_file (filepath :: rest) fs in
      (tt, left_fs r,
       [EvPrint Starting; EvPrint Finding; EvPrint (Found (length (filepath :: rest)))]
       ++ trace r
       ++ [EvPrint (Finished (value r) (length (filepath :: rest))); EvPrint NextSteps]
       ++ (if 0 <? value r then [EvPrint RunAgainHint] else []))
  end.
Proof.
  unfold main, io_bind, io_print, io_tree.
  destruct (find_dart_files (tree fs)) as [|filepath rest]; [reflexivity|].
  cbv zeta. unfold value, left_fs, trace.
  destruct (process_files read_file write_file (filepath :: rest) fs) as [[n fs'] t].
  cbn [fst snd]. unfold io_ret. destruct (0 <? n); reflexivity.
Qed.


(** *** What a run reads, writes and counts *)

Lemma value_of (A : Type) (a : A) (fs : filesystem) (t : list event) : value (a, fs, t) = a.
Proof. reflexivity. Qed.

Lemma left_fs_of (A : Type) (a : A) (fs : filesystem) (t : list event) :
  left_fs (a, fs, t) = fs.
Proof. reflexivity. Qed.

Lemma trace_of (A : Type) (a : A) (fs : filesystem) (t : list event) : trace (a, fs, t) = t.
Proof. reflexivity. Qed.

Lemma reads_app (t1 t2 : list event) : reads (t1 ++ t2) = reads t1 ++ reads t2.
Proof. apply flat_map_app. Qed.

Lemma reads_prints (l : list line) : reads (map EvPrint l) = [].
Proof. induction l as [|x l IH]; [reflexivity|exact IH]. Qed.

Lemma prints_prints (l : list line) : prints (map EvPrint l) = l.
Proof.
  induction l as [|x l IH]; [reflexivity|].
  change (prints (map EvPrint (x :: l))) with (x :: prints (map EvPrint l)).
  now rewrite IH.
Qed.

Lemma filter_none (A : Type) (f : A -> bool) (l : list A) :
  Forall (fun x => f x = false) l -> filter f l = [].
Proof. induction 1 as [|x l Hx _ IH]; [reflexivity|]. cbn. now rewrite Hx. Qed.


(** The lines, reads and writes of [process_file], each of the four
    ways through it *)
Lemma process_file_effects (fs : filesystem) (filepath : str) :
  reads (trace (process_file read_file write_file filepath fs)) = [filepath] /\
  length (filter is_updated (prints (trace (process_file read_file write_file filepath fs))))
  = (if value (process_file read_file write_file filepath fs) then 1 else 0) /\
  (forall p c, In (p, c) (writes (trace (process_file read_file write_file filepath fs))) ->
               p = filepath) /\
  length (writes (trace (process_file read_file write_file filepath fs))) <= 1 /\
  (if value (process_file read_file write_file filepath fs) then 1 else 0)
  <= length (writes (trace (process_file read_file write_file filepath fs))) /\
  (writes (trace (process_file read_file write_file filepath fs)) = [] ->
   left_fs (process_file read_file write_file filepath fs) = fs).
Proof.
  rewrite process_file_cases.
  destruct (read_file fs filepath) as [content|e].
  - cbv zeta. pose proof (process_constants_prints content) as Hprints.
    apply filter_none in Hprints.
    set (st := process_constants content) in *. clearbody st.
    destruct st as [[final changes] lines]. cbn [returned printed fst snd] in *.
    destruct (negb (str_eqb final content)).
    + destruct (write_file fs filepath final) as [fs' [[]|e]];
        unfold trace, value, left_fs; cbn [fst snd];
        rewrite !reads_app, !prints_app, !writes_app, reads_prints, prints_prints,
          writes_prints, !filter_app, Hprints; cbn;
        (repeat split; [intros p c [H|[]]; now injection H|lia|lia|discriminate]).
    + unfold trace, value, left_fs; cbn [fst snd].
      rewrite !reads_app, !prints_app, !writes_app, reads_prints, prints_prints,
        writes_prints, !filter_app, Hprints; cbn.
      repeat split; [intros p c []|lia|lia].
  - unfold trace, value, left_fs; cbn. repeat split; [intros p c []|lia|lia].
Qed.

(** The loop over the files: it reads the files in order, each once;
    it writes none but them, at most one write for one file; and the
    number it returns is the number of [Updated] lines it printed. *)
Lemma process_files_effects (dart_files : list str) :
  forall fs,
    reads (trace (process_files read_file write_file dart_files fs)) = dart_files /\
    value (process_files read_file write_file dart_files fs)
    = length (filter is_updated
                (prints (trace (process_files read_file write_file dart_files fs)))) /\
    (forall p c, In (p, c) (writes (trace (process_files read_file write_file dart_files fs))) ->
                 In p dart_files) /\
    length (writes (trace (process_files read_file write_file dart_files fs)))
    <= length dart_files /\
    value (process_files read_file write_file dart_files fs)
    <= length (writes (trace (process_files read_file write_file dart_files fs))) /\
    (writes (trace (process_files read_file write_file dart_files fs)) = [] ->
     left_fs (process_files read_file write_file dart_files fs) = fs).
Proof.
  induction dart_files as [|filepath rest IH]; intro fs.
  - cbn. repeat split; [intros p c []|lia|lia].
  - rewrite process_files_cons.
    destruct (process_file_effects fs filepath) as (Hr & Hu & Hw & Hone & Hcount & Hfs).
    destruct (IH (left_fs (process_file read_file write_file filepath fs)))
      as (Hr' & Hu' & Hw' & Hone' & Hcount' & Hfs').
    rewrite !trace_of, !value_of, !left_fs_of.
    rewrite reads_app, prints_app, writes_app, filter_app, !length_app, Hr, Hr', Hu, <- Hu'.
    split; [reflexivity|]. split; [reflexivity|]. split; [|split; [|split]].
    + intros p c Hin. apply in_app_or in Hin as [Hin|Hin].
      * left. symmetry. now apply Hw with c.
      * right. now apply Hw' with c.
    + simpl. lia.
    + lia.
    + intro H. apply app_eq_nil in H as [H1 H2]. now rewrite (Hfs' H2), (Hfs H1).
Qed.

(** X11.  The count of updated files that the loop of [main] keeps is
    the number of [Updated] lines printed in the loop, and no more than
    the writes made in it. *)
Theorem tally_counts_updated_lines (dart_files : list str) (fs : filesystem) :
  value (process_files read_file write_file dart_files fs)
  = length (filter is_updated
              (prints (trace (process_files read_file write_file dart_files fs)))) /\
  value (process_files read_file write_file dart_files fs)
  <= length (writes (trace (process_files read_file write_file dart_files fs))).
Proof.
  destruct (process_files_effects dart_files fs) as (_ & Hu & _ & _ & Hcount & _).
  now split.
Qed.

Lemma main_trace (fs : filesystem) :
  reads (trace (main tree read_file write_file fs))
  = reads (trace (process_files read_file write_file (find_dart_files (tree fs)) fs)) /\
  writes (trace (main tree read_file write_file fs))
  = writes (trace (process_files read_file write_file (find_dart_files (tree fs)) fs)) /\
  left_fs (main tree read_file write_file fs)
  = left_fs (process_files read_file write_file (find_dart_files (tree fs)) fs).
Proof.
  rewrite main_cases.
  destruct (find_dart_files (tree fs)) as [|filepath rest]; [now cbn|].
  cbv zeta. rewrite !trace_of, !left_fs_of.
  rewrite !reads_app, !writes_app.
  destruct (0 <? value (process_files read_file write_file (filepath :: rest) fs));
    cbn; now rewrite !app_nil_r.
Qed.


(** X13.  [main] writes no file but the files found: what it writes has a
    path that ends with [.dart] and of which [dev_config.dart] is no
    piece; and it makes no more writes than there are files found. *)
Theorem main_writes_only_files_found (fs : filesystem) :
  (forall p c, In (p, c) (writes (trace (main tree read_file write_file fs))) ->
               In p (find_dart_files (tree fs)) /\
               endswith (text ".dart") p = true /\
               ~ occurs (text "dev_config.dart") p) /\
  length (writes (trace (main tree read_file write_file fs)))
  <= length (find_dart_files (tree fs)).
Proof.
  destruct (main_trace fs) as (_ & -> & _).
  destruct (process_files_effects (find_dart_files (tree fs)) fs)
    as (_ & _ & Hw & Hone & _).
  split; [|exact Hone].
  intros p c Hin. apply Hw in Hin. split; [exact Hin|].
  now apply found_files_are_dart_files with (tree fs).
Qed.

(** X14.  A run of [main] that writes nothing leaves the file system as it
    found it. *)
Theorem no_write_no_change (fs : filesystem) :
  writes (trace (main tree read_file write_file fs)) = [] ->
  left_fs (main tree read_file write_file fs) = fs.
Proof.
  destruct (main_trace fs) as (_ & -> & ->).
  now destruct (process_files_effects (find_dart_files (tree fs)) fs) as (_ & _ & _ & _ & _ & H).
Qed.

End FileProperties.

End Classes.

Arguments value {filesystem A} r.
Arguments left_fs {filesystem A} r.
Arguments trace {filesystem A} r.
Arguments process_file unicode_class {filesystem} read_file write_file filepath _.
Arguments process_files unicode_class {filesystem} read_file write_file dart_files _.
Arguments main unicode_class {filesystem} tree read_file write_file _.

(** * Runs on concrete input

    The texts below are ASCII: the classification of the other code
    points plays no part in these runs. *)

Lemma in_registry (constant : str) :
  existsb (str_eqb constant) CONSTANTS = true -> In constant CONSTANTS.
Proof.
  intro H. apply existsb_exists in H as (k & Hin & Hk).
  apply str_eqb_eq in Hk. now subst k.
Qed.

(** C8.  Beside [dev_config.dart], the file
    [my_dev_config.dart] is left out: the test is on [dev_config.dart]
    being a piece of the path, not on the name of the file. *)
Theorem other_files_are_excluded :
  find_dart_files
    [File (text "main.dart");
     File (text "dev_config.dart");
     Dir (text "lib") [File (text "my_dev_config.dart"); File (text "app.dart")]]
  = [text "./main.dart"; text "./lib/app.dart"].
Proof. vm_compute. reflexivity. Qed.



(** C3, counterexample.  One pass over all the constants leaves both
    contents as they are.  In the first the constant is skipped because
    [dev.kClientName] already occurs; in the second a dot follows the
    constant.  In both, the constant is a whole word and [dev.] does not
    stand before it. *)
Lemma bare_usages_remain :
  In (text "kClientName") CONSTANTS /\
  (fst (returned (process_constants ascii_only (text "a = dev.kClientName; b = kClientName;")))
   = text "a = dev.kClientName; b = " ++ text "kClientName" ++ text ";" /\
   last_is_word ascii_only (text "a = dev.kClientName; b = ") = false /\
   head_is_word ascii_only (text ";") = false /\
   endswith (text "dev.") (text "a = dev.kClientName; b = ") = false) /\
  (fst (returned (process_constants ascii_only (text "x = kClientName.length;")))
   = text "x = " ++ text "kClientName" ++ text ".length;" /\
   last_is_word ascii_only (text "x = ") = false /\
   head_is_word ascii_only (text ".length;") = false /\
   endswith (text "dev.") (text "x = ") = false).
Proof.
  split; [apply in_registry; vm_compute; reflexivity|].
  repeat split; vm_compute; reflexivity.
Qed.

(** C3, witness *)
Lemma bare_usages_are_qualified_witness :
  In (text "kScrollWheelVelocity") CONSTANTS /\
  ~ occurs (text "dev." ++ text "kScrollWheelVelocity")
      (text "double a = kScrollWheelVelocity * 2;") /\
  fst (returned (process_constant_in_content ascii_only
                   (text "double a = kScrollWheelVelocity * 2;")
                   (text "kScrollWheelVelocity")))
  = text "double a = dev." ++ text "kScrollWheelVelocity" ++ text " * 2;" /\
  last_is_word ascii_only (text "double a = dev.") = false /\
  head_is_word_or_dot ascii_only (text " * 2;") = false /\
  exists pre', text "double a = dev." = pre' ++ text "dev.".
Proof.
  assert (Hin : In (text "kScrollWheelVelocity") CONSTANTS)
    by (apply in_registry; vm_compute; reflexivity).
  assert (Hnew : ~ occurs (text "dev." ++ text "kScrollWheelVelocity")
                   (text "double a = kScrollWheelVelocity * 2;"))
    by (apply contains_false; vm_compute; reflexivity).
  assert (Hout :
    fst (returned (process_constant_in_content ascii_only
                     (text "double a = kScrollWheelVelocity * 2;")
                     (text "kScrollWheelVelocity")))
    = text "double a = dev." ++ text "kScrollWheelVelocity" ++ text " * 2;")
    by (vm_compute; reflexivity).
  assert (Hpre : last_is_word ascii_only (text "double a = dev.") = false)
    by (vm_compute; reflexivity).
  assert (Hpost : head_is_word_or_dot ascii_only (text " * 2;") = false)
    by (vm_compute; reflexivity).
  repeat (split; [assumption|]).
  exact (bare_usages_are_qualified ascii_only _ _ _ _ Hin Hnew Hout Hpre Hpost).
Defined.



(** C6, witness *)
Lemma short_circuit_witness :
  (occurs (text "dev." ++ text "kClientName") (text "name: dev.kClientName, id: kClientName") \/
   ~ occurs (text "kClientName") (text "name: dev.kClientName, id: kClientName")) /\
  returned (process_constant_in_content ascii_only
              (text "name: dev.kClientName, id: kClientName") (text "kClientName"))
  = (text "name: dev.kClientName, id: kClientName", false) /\
  printed (process_constant_in_content ascii_only
             (text "name: dev.kClientName, id: kClientName") (text "kClientName"))
  = [].
Proof.
  assert (H : occurs (text "dev." ++ text "kClientName")
                (text "name: dev.kClientName, id: kClientName") \/
              ~ occurs (text "kClientName") (text "name: dev.kClientName, id: kClientName"))
    by (left; apply contains_spec; vm_compute; reflexivity).
  split; [exact H|].
  exact (short_circuit ascii_only _ _ H).
Defined.



(** C10, witness: the file cannot be written. *)
Lemma failed_file_counts_as_unchanged_witness :
  mem_read two_files_locked (text "./lib/a.dart")
  = Ok (text "double a = kScrollWheelVelocity * 2;") /\
  snd (mem_write two_files_locked (text "./lib/a.dart")
         (text "double a = dev.kScrollWheelVelocity * 2;"))
  = Raised (text "Permission denied") /\
  value (process_file ascii_only mem_read mem_write (text "./lib/a.dart") two_files_locked)
  = false /\
  value (process_files ascii_only mem_read mem_write
           [text "./lib/a.dart"; text "./lib/b.dart"] two_files_locked)
  = value (process_files ascii_only mem_read mem_write [text "./lib/b.dart"]
             (left_fs (process_file ascii_only mem_read mem_write
                         (text "./lib/a.dart") two_files_locked))).
Proof.
  assert (Hread : mem_read two_files_locked (text "./lib/a.dart")
                  = Ok (text "double a = kScrollWheelVelocity * 2;")) by reflexivity.
  assert (Hfinal : fst (returned (process_constants ascii_only
                                    (text "double a = kScrollWheelVelocity * 2;")))
                   = text "double a = dev.kScrollWheelVelocity * 2;")
    by (vm_compute; reflexivity).
  assert (Hwrite : snd (mem_write two_files_locked (text "./lib/a.dart")
                          (text "double a = dev.kScrollWheelVelocity * 2;"))
                   = Raised (text "Permission denied")) by reflexivity.
  split; [exact Hread|]. split; [exact Hwrite|].
  destruct (failed_file_counts_as_unchanged ascii_only memfs mem_read mem_write
              two_files_locked (text "./lib/a.dart") [text "./lib/b.dart"])
    as (Hfalse & _ & Hcount).
  - right. exists (text "double a = kScrollWheelVelocity * 2;"), (text "Permission denied").
    split; [exact Hread|]. rewrite Hfinal. split; [|exact Hwrite].
    apply str_eqb_neq. vm_compute. reflexivity.
  - split; [exact Hfalse|exact Hcount].
Defined.

(** X1, witness *)
Lemma unrelated_text_is_kept_witness :
  (forall k, In k CONSTANTS -> ~ occurs k (text "int b = 1;")) /\
  returned (process_constants ascii_only (text "int b = 1;")) = (text "int b = 1;", []) /\
  printed (process_constants ascii_only (text "int b = 1;")) = [].
Proof.
  assert (H : forall k, In k CONSTANTS -> ~ occurs k (text "int b = 1;")).
  { assert (Hall : forallb (fun k => negb (contains k (text "int b = 1;"))) CONSTANTS = true)
      by (vm_compute; reflexivity).
    intros k Hk. rewrite forallb_forall in Hall. specialize (Hall k Hk).
    apply contains_false. now apply negb_true_iff in Hall. }
  split; [exact H|].
  exact (unrelated_text_is_kept ascii_only _ H).
Defined.

(** A later constant can bring back a bare usage of an earlier one:
    [replace] looks for [const ] with one blank, the match has two, and
    the [const ] taken out is the one inside the argument list. *)
Lemma later_constant_brings_bare_usage :
  fst (returned (process_constants ascii_only
                   (text "const  om(kPreviewTileZoconst om, kPreviewTileY)")))
  = text "const  om(kPreviewTileZoom, dev.kPreviewTileY)".
Proof. vm_compute. reflexivity. Qed.

(** X2, witness *)
Lemma pattern4_matches_whole_words_witness :
  identifier ascii_only (text "kClientName") /\
  (match_here ascii_only (pattern4 ascii_only (text "kClientName")) false
     (text "kClientName;") = Some (11, []) <->
   false = false /\
   (exists rest, text "kClientName;" = text "kClientName" ++ rest /\
                 head_is_word_or_dot ascii_only rest = false) /\
   (11, @nil str) = (length (text "kClientName"), [])).
Proof.
  assert (Hk : identifier ascii_only (text "kClientName"))
    by (split; [discriminate|vm_compute; reflexivity]).
  split; [exact Hk|].
  exact (pattern4_matches_whole_words ascii_only (text "kClientName") false
           (text "kClientName;") (11, []) Hk).
Defined.

(** Every place of [s] at which [k] stands passes the test [P] on what
    is before and behind it, when the places of [s] do one by one. *)
Lemma every_usage (P : str -> str -> bool) (k s : str) :
  forallb (fun i => negb (startswith k (skipn i s))
                    || P (firstn i s) (skipn (i + length k) s))
          (seq 0 (S (length s))) = true ->
  forall pre post, s = pre ++ k ++ post -> P pre post = true.
Proof.
  intros H pre post ->. rewrite forallb_forall in H. specialize (H (length pre)).
  rewrite skipn_exact, startswith_app, firstn_exact in H.
  rewrite <- length_app, app_assoc, skipn_exact in H.
  apply H, in_seq. rewrite <- app_assoc, length_app. lia.
Qed.

(** X7, witness *)
Lemma bare_usage_rule_qualifies_witness :
  identifier ascii_only (text "kClientName") /\
  ~ occurs (text "kClientName") (text "name: ") /\
  last_is_word ascii_only (text "name: ") = false /\
  head_is_word_or_dot ascii_only (text ", id: kClientName.length") = false /\
  re_sub ascii_only (pattern4 ascii_only (text "kClientName")) (replacement4 (text "kClientName"))
    (text "name: " ++ text "kClientName" ++ text ", id: kClientName.length")
  = text "name: " ++ text "dev." ++ text "kClientName"
    ++ re_sub ascii_only (pattern4 ascii_only (text "kClientName"))
         (replacement4 (text "kClientName")) (text ", id: kClientName.length").
Proof.
  assert (Hk : identifier ascii_only (text "kClientName"))
    by (split; [discriminate|vm_compute; reflexivity]).
  assert (Hno : ~ occurs (text "kClientName") (text "name: "))
    by (apply contains_false; vm_compute; reflexivity).
  assert (Hpre : last_is_word ascii_only (text "name: ") = false) by (vm_compute; reflexivity).
  assert (Hpost : head_is_word_or_dot ascii_only (text ", id: kClientName.length") = false)
    by (vm_compute; reflexivity).
  repeat (split; [assumption|]).
  exact (bare_usage_rule_qualifies ascii_only _ _ _ Hk Hno Hpre Hpost).
Defined.

(** X8, witness: a member access and a longer identifier. *)
Lemma bare_usage_rule_keeps_other_text_witness :
  identifier ascii_only (text "kClientName") /\
  (forall pre post,
     text "n = kClientName.length + mkClientName;" = pre ++ text "kClientName" ++ post ->
     last_is_word ascii_only pre = true \/ head_is_word_or_dot ascii_only post = true) /\
  re_sub ascii_only (pattern4 ascii_only (text "kClientName")) (replacement4 (text "kClientName"))
    (text "n = kClientName.length + mkClientName;")
  = text "n = kClientName.length + mkClientName;".
Proof.
  assert (Hk : identifier ascii_only (text "kClientName"))
    by (split; [discriminate|vm_compute; reflexivity]).
  assert (H : forall pre post,
     text "n = kClientName.length + mkClientName;" = pre ++ text "kClientName" ++ post ->
     last_is_word ascii_only pre = true \/ head_is_word_or_dot ascii_only post = true).
  { intros pre post E. apply orb_true_iff.
    apply (every_usage
             (fun pre post => last_is_word ascii_only pre || head_is_word_or_dot ascii_only post)
             (text "kClientName") (text "n = kClientName.length + mkClientName;"));
      [vm_compute; reflexivity|exact E]. }
  split; [exact Hk|]. split; [exact H|].
  exact (bare_usage_rule_keeps_other_text ascii_only _ _ Hk H).
Defined.

(** X9, witness *)
Lemma qualifying_run_is_final_witness :
  identifier ascii_only (text "kClientName") /\
  ~ occurs (text "dev." ++ text "kClientName") (text "const A(kClientName, b.kClientName)") /\
  occurs (text "kClientName") (text "const A(kClientName, b.kClientName)") /\
  returned (process_constant_in_content ascii_only
              (text "const A(kClientName, b.kClientName)") (text "kClientName"))
  = (text "A(dev.kClientName, b.dev.kClientName)", true) /\
  returned (process_constant_in_content ascii_only
              (text "A(dev.kClientName, b.dev.kClientName)") (text "kClientName"))
  = (text "A(dev.kClientName, b.dev.kClientName)", false).
Proof.
  assert (Hk : identifier ascii_only (text "kClientName"))
    by (split; [discriminate|vm_compute; reflexivity]).
  assert (Hnew : ~ occurs (text "dev." ++ text "kClientName")
                   (text "const A(kClientName, b.kClientName)"))
    by (apply contains_false; vm_compute; reflexivity).
  assert (Hocc : occurs (text "kClientName") (text "const A(kClientName, b.kClientName)"))
    by (apply contains_spec; vm_compute; reflexivity).
  assert (Hfirst :
    returned (process_constant_in_content ascii_only
                (text "const A(kClientName, b.kClientName)") (text "kClientName"))
    = (text "A(dev.kClientName, b.dev.kClientName)", true))
    by (vm_compute; reflexivity).
  repeat (split; [assumption|]).
  assert (Hrun := qualifying_run_is_final ascii_only
                    (text "const A(kClientName, b.kClientName)") (text "kClientName")
                    Hk Hnew Hocc).
  rewrite Hfirst in Hrun. apply Hrun.
  apply str_eqb_neq. vm_compute. reflexivity.
Defined.

(** X5, witness *)
Lemma declaration_rule_witness :
  re_sub ascii_only (pattern1 ascii_only (text "kClientName")) (replacement1 (text "kClientName"))
    (text "static " ++ (text "const" ++ text "  " ++ text "String" ++ text " " ++ text "name"
                        ++ text "" ++ text "=" ++ text " " ++ text "kClientName" ++ text " "
                        ++ text ";") ++ text " int b;")
  = text "static " ++ (text "final " ++ text "String" ++ text " " ++ text "name"
                       ++ text " = dev." ++ text "kClientName" ++ text ";")
    ++ re_sub ascii_only (pattern1 ascii_only (text "kClientName"))
         (replacement1 (text "kClientName")) (text " int b;").
Proof.
  apply (declaration_rule ascii_only);
    try (split; [discriminate|vm_compute; reflexivity]);
    try discriminate;
    try (vm_compute; reflexivity).
  apply contains_false. vm_compute. reflexivity.
Defined.

(** X14, witness: the one file needs no change. *)
Lemma no_write_no_change_witness :
  writes (trace (main ascii_only mem_tree mem_read mem_write
                   (MemFs [Dir (text "lib") [File (text "b.dart")]]
                          [(text "./lib/b.dart", text "int b = 1;")] [])))
  = [] /\
  left_fs (main ascii_only mem_tree mem_read mem_write
             (MemFs [Dir (text "lib") [File (text "b.dart")]]
                    [(text "./lib/b.dart", text "int b = 1;")] []))
  = MemFs [Dir (text "lib") [File (text "b.dart")]]
          [(text "./lib/b.dart", text "int b = 1;")] [].
Proof.
  assert (H : writes (trace (main ascii_only mem_tree mem_read mem_write
                   (MemFs [Dir (text "lib") [File (text "b.dart")]]
                          [(text "./lib/b.dart", text "int b = 1;")] [])))
              = []) by (vm_compute; reflexivity).
  split; [exact H|].
  exact (no_write_no_change ascii_only memfs mem_tree mem_read mem_write _ H).
Defined.

(** X15, witness *)
Lemma declaration_rule_leaves_none_witness :
  identifier ascii_only (text "kClientName") /\
  re_sub ascii_only (pattern1 ascii_only (text "kClientName")) (replacement1 (text "kClientName"))
    (text "const String a = kClientName; const String b = kClientName;")
  = text "final String a = dev.kClientName; final String b = dev.kClientName;" /\
  re_sub ascii_only (pattern1 ascii_only (text "kClientName")) (replacement1 (text "kClientName"))
    (text "final String a = dev.kClientName; final String b = dev.kClientName;")
  = text "final String a = dev.kClientName; final String b = dev.kClientName;".
Proof.
  assert (Hk : identifier ascii_only (text "kClientName"))
    by (split; [discriminate|vm_compute; reflexivity]).
  assert (Hfirst :
    re_sub ascii_only (pattern1 ascii_only (text "kClientName"))
      (replacement1 (text "kClientName"))
      (text "const String a = kClientName; const String b = kClientName;")
    = text "final String a = dev.kClientName; final String b = dev.kClientName;")
    by (vm_compute; reflexivity).
  split; [exact Hk|]. split; [exact Hfirst|].
  rewrite <- Hfirst at 1.
  exact (declaration_rule_leaves_none ascii_only _ _ Hk).
Defined.

(** X16, witness: the declaration rule has taken the static
    declaration. *)
Lemma static_rule_never_applies_witness :
  identifier ascii_only (text "kClientName") /\
  re_sub ascii_only (pattern1 ascii_only (text "kClientName")) (replacement1 (text "kClientName"))
    (text "static const String n = kClientName;")
  = text "static final String n = dev.kClientName;" /\
  re_sub ascii_only (pattern2 ascii_only (text "kClientName")) (replacement2 (text "kClientName"))
    (text "static final String n = dev.kClientName;")
  = text "static final String n = dev.kClientName;".
Proof.
  assert (Hk : identifier ascii_only (text "kClientName"))
    by (split; [discriminate|vm_compute; reflexivity]).
  assert (Hfirst :
    re_sub ascii_only (pattern1 ascii_only (text "kClientName"))
      (replacement1 (text "kClientName")) (text "static const String n = kClientName;")
    = text "static final String n = dev.kClientName;")
    by (vm_compute; reflexivity).
  split; [exact Hk|]. split; [exact Hfirst|].
  rewrite <- Hfirst at 1.
  exact (static_rule_never_applies ascii_only _ _ Hk).
Defined.
